(** * A shallow embedding of [hw1.py]: the contact book and its commands

    The development follows the layout of the Python source:
    exceptions, the field classes ([Phone], [Birthday]), [Record],
    [AddressBook], the [input_error] decorator and the command functions.

    Conventions.
    - A Python [str] is a sequence of Unicode code points.  The model uses
      [string], reading every [ascii] as the code point of the same number,
      so it covers the strings over U+0000..U+00FF.
    - A Python exception is a value of [exn]; code that can raise returns a
      [result]; code that also mutates the book or prints runs in the monad
      [M], whose state survives a raise, as object mutation does in Python.
    - [datetime.today()] is an input of the model ([today]). *)

From Stdlib Require Import ZArith List String Ascii Bool Lia DecimalString.
Import ListNotations.

Local Open Scope string_scope.
Local Open Scope Z_scope.

(** ** Exceptions and results *)

Inductive exn : Type :=
| KeyError
| IndexError
| ValueError (msg : string)
| AttributeError (msg : string).

Inductive result (A : Type) : Type :=
| Ok (a : A)
| Raise (e : exn).

Arguments Ok {A} a.
Arguments Raise {A} e.

Definition rbind {A B} (r : result A) (k : A -> result B) : result B :=
  match r with
  | Ok a => k a
  | Raise e => Raise e
  end.

Declare Scope result_scope.
Delimit Scope result_scope with res.
Notation "x <~ c ;; k" := (rbind c (fun x => k))
  (at level 61, c at next level, right associativity) : result_scope.

(** Code that mutates an object of type [S] and may raise: the object after
    the call is returned together with the outcome, also when the call
    raises, since a raise does not undo the assignments made before it. *)
Definition St (S A : Type) : Type := S -> result A * S.

Definition ret {S A} (a : A) : St S A := fun s => (Ok a, s).
Definition raise {S A} (e : exn) : St S A := fun s => (Raise e, s).
Definition bind {S A B} (m : St S A) (k : A -> St S B) : St S B :=
  fun s => match m s with
           | (Ok a, s') => k a s'
           | (Raise e, s') => (Raise e, s')
           end.
Definition get_state {S} : St S S := fun s => (Ok s, s).
Definition put_state {S} (s : S) : St S unit := fun _ => (Ok tt, s).
(** A call that cannot mutate but may raise. *)
Definition lift {S A} (r : result A) : St S A := fun s => (r, s).

Declare Scope cmd_scope.
Delimit Scope cmd_scope with cmd.
Notation "x <- c ;; k" := (bind c (fun x => k))
  (at level 61, c at next level, right associativity) : cmd_scope.
Notation "c ;; k" := (bind c (fun _ => k))
  (at level 61, right associativity) : cmd_scope.

(** ** Python string primitives *)

Module PyStr.

Definition chars (s : string) : list ascii := list_ascii_of_string s.

Definition ord (c : ascii) : N := N_of_ascii c.

(** Characters of general category Nd below U+0100: the ASCII digits. *)
Definition is_decimal_char (c : ascii) : bool :=
  ((48 <=? ord c) && (ord c <=? 57))%N.

(** [str.isdigit] on one character: Numeric_Type Decimal or Digit.  Below
    U+0100 these are the ASCII digits and the superscripts U+00B2, U+00B3
    and U+00B9. *)
Definition isdigit_char (c : ascii) : bool :=
  (is_decimal_char c
   || (ord c =? 178) || (ord c =? 179) || (ord c =? 185))%N.

(** [s.isdigit()]: every character is a digit and there is at least one. *)
Definition isdigit (s : string) : bool :=
  match chars s with
  | [] => false
  | cs => forallb isdigit_char cs
  end.

(** [len(s)] *)
Definition len (s : string) : nat := String.length s.

(** [sep.join(parts)] *)
Fixpoint join (sep : string) (parts : list string) : string :=
  match parts with
  | [] => ""
  | [p] => p
  | p :: ps => p ++ sep ++ join sep ps
  end.

(** [str(n)] for a non-negative integer. *)
Definition of_nat (n : nat) : string :=
  NilEmpty.string_of_uint (Nat.to_uint n).

(** [int(s)] for a string of ASCII digits, blanks skipped. *)
Definition digit_val (c : ascii) : Z :=
  if is_decimal_char c then Z.of_N (ord c) - 48 else 0.

Definition to_int (cs : list ascii) : Z :=
  fold_left (fun acc c => if is_decimal_char c then 10 * acc + digit_val c else acc)
            cs 0.

(** ["%0<w>d" % n] for [0 <= n]: decimal, zero-filled to width [w]. *)
Fixpoint zeros (k : nat) : string :=
  match k with
  | O => ""
  | S k' => String "0" (zeros k')
  end.

Definition zfill (w : nat) (n : Z) : string :=
  let s := of_nat (Z.to_nat n) in
  zeros (w - String.length s) ++ s.

End PyStr.

(** ** Field, Name, Phone *)

(** A [Phone] keeps its text in the private attribute [__value].  Only
    objects whose constructor returned are ever stored, so the text is
    always there. *)
Record Phone : Type := mkPhone { phone_value : string }.

(** The test of the property setter. *)
Definition phone_ok (value : string) : bool :=
  (PyStr.len value =? 10)%nat && PyStr.isdigit value.

(** The setter of [Phone.value], used by [phone.value = value]. *)
Definition Phone_set_value (value : string) : St Phone unit :=
  if phone_ok value then put_state (mkPhone value)
  else raise (ValueError "Invalid phone format").

(** [Phone(value)]: [__value] is set to [None] and then the setter runs on
    the new object; the object exists for the caller only if it returns. *)
Definition Phone_init (value : string) : result Phone :=
  if phone_ok value then Ok (mkPhone value)
  else Raise (ValueError "Invalid phone format").

(** [str(phone)], from [Field.__str__]. *)
Definition Phone_str (p : Phone) : string := phone_value p.

(** ** The [datetime.date] operations the program uses

    Proleptic Gregorian calendar, years 1..9999, as in CPython's
    [datetime] ([_is_leap], [_days_in_month], [_days_before_year],
    [_days_before_month], [_ymd2ord]). *)

Module Date.

Record date : Type := mkDate { year : Z; month : Z; day : Z }.

Definition MINYEAR : Z := 1.
Definition MAXYEAR : Z := 9999.

Definition is_leap (y : Z) : bool :=
  (y mod 4 =? 0) && (negb (y mod 100 =? 0) || (y mod 400 =? 0)).

Definition days_in_month (y m : Z) : Z :=
  match m with
  | 1 | 3 | 5 | 7 | 8 | 10 | 12 => 31
  | 4 | 6 | 9 | 11 => 30
  | 2 => if is_leap y then 29 else 28
  | _ => 0
  end.

Definition days_before_year (y : Z) : Z :=
  let p := y - 1 in
  p * 365 + p / 4 - p / 100 + p / 400.

Definition days_before_month (y m : Z) : Z :=
  fold_left (fun acc k => acc + days_in_month y (Z.of_nat k))
            (seq 1 (Z.to_nat m - 1)) 0.

(** [date(y, m, d)]: the constructor checks its fields. *)
Definition new (y m d : Z) : result date :=
  if negb ((MINYEAR <=? y) && (y <=? MAXYEAR)) then
    Raise (ValueError ("year " ++ PyStr.of_nat (Z.to_nat y) ++ " is out of range"))
  else if negb ((1 <=? m) && (m <=? 12)) then
    Raise (ValueError "month must be in 1..12")
  else if negb ((1 <=? d) && (d <=? days_in_month y m)) then
    Raise (ValueError "day is out of range for month")
  else Ok (mkDate y m d).

(** [self.replace(year=y)] *)
Definition replace_year (self : date) (y : Z) : result date :=
  new y (month self) (day self).

(** [self.toordinal()] *)
Definition toordinal (self : date) : Z :=
  days_before_year (year self) + days_before_month (year self) (month self)
  + day self.

(** [a < b]: comparison of the triples (year, month, day). *)
Definition lt (a b : date) : bool :=
  (year a <? year b)
  || ((year a =? year b)
      && ((month a <? month b)
          || ((month a =? month b) && (day a <? day b)))).

(** [(a - b).days] *)
Definition sub_days (a b : date) : Z := toordinal a - toordinal b.

(** [self.strftime("%Y.%m.%d")].  The C library writes [%Y]: glibc writes
    the year in decimal without padding, so a year below 1000 has fewer
    than four digits (999.01.02); [%m] and [%d] have two digits. *)
Definition strftime_Ymd (self : date) : string :=
  PyStr.of_nat (Z.to_nat (year self)) ++ "." ++ PyStr.zfill 2 (month self)
  ++ "." ++ PyStr.zfill 2 (day self).

Definition valid (d : date) : Prop := new (year d) (month d) (day d) = Ok d.

End Date.

(** ** [datetime.strptime(value, "%d.%m.%Y").date()]

    [_strptime] turns the format into the regular expression
    [(?P<d>3[0-1]|[1-2]\d|0[1-9]|[1-9]| [1-9])\.(?P<m>1[0-2]|0[1-9]|[1-9])\.(?P<Y>\d\d\d\d)],
    matches it at the start of the text, rejects text left over, converts
    the groups with [int] and builds the date.  Every failure is a
    [ValueError], so the model returns [None] for all of them.  A matcher
    lists its matches in the order the backtracking engine tries them. *)

Module Strptime.

Definition matcher : Type := list ascii -> list (list ascii * list ascii).

Definition in_range (lo hi : N) (c : ascii) : bool :=
  ((lo <=? PyStr.ord c) && (PyStr.ord c <=? hi))%N.

(** One character satisfying [p]. *)
Definition one (p : ascii -> bool) : matcher :=
  fun s => match s with
           | c :: rest => if p c then [([c], rest)] else []
           | [] => []
           end.

Definition seq2 (a b : matcher) : matcher :=
  fun s => flat_map (fun '(t1, r1) =>
                       map (fun '(t2, r2) => ((t1 ++ t2)%list, r2)) (b r1)) (a s).

Definition alt (ms : list matcher) : matcher :=
  fun s => flat_map (fun m => m s) ms.

Definition lit (n : N) : ascii -> bool := fun c => (PyStr.ord c =? n)%N.
Definition digit : ascii -> bool := in_range 48 57.

(** [3[0-1]|[1-2]\d|0[1-9]|[1-9]| [1-9]] *)
Definition re_d : matcher :=
  alt [ seq2 (one (lit 51)) (one (in_range 48 49));
        seq2 (one (in_range 49 50)) (one digit);
        seq2 (one (lit 48)) (one (in_range 49 57));
        one (in_range 49 57);
        seq2 (one (lit 32)) (one (in_range 49 57)) ].

(** [1[0-2]|0[1-9]|[1-9]] *)
Definition re_m : matcher :=
  alt [ seq2 (one (lit 49)) (one (in_range 48 50));
        seq2 (one (lit 48)) (one (in_range 49 57));
        one (in_range 49 57) ].

(** [\d\d\d\d] *)
Definition re_Y : matcher :=
  seq2 (one digit) (seq2 (one digit) (seq2 (one digit) (one digit))).

Definition re_dot : matcher := one (lit 46).

(** All matches of the whole expression, first one first, as
    (day text, month text, year text, text left over). *)
Definition matches (s : list ascii)
  : list (list ascii * list ascii * list ascii * list ascii) :=
  flat_map (fun '(d, r1) =>
    flat_map (fun '(_, r2) =>
      flat_map (fun '(m, r3) =>
        flat_map (fun '(_, r4) =>
          map (fun '(y, r5) => (d, m, y, r5)) (re_Y r4))
        (re_dot r3))
      (re_m r2))
    (re_dot r1))
  (re_d s).

Definition strptime_date (value : string) : option Date.date :=
  match matches (PyStr.chars value) with
  | (d, m, y, []) :: _ =>
      match Date.new (PyStr.to_int y) (PyStr.to_int m) (PyStr.to_int d) with
      | Ok dt => Some dt
      | Raise _ => None
      end
  | _ => None
  end.

End Strptime.

(** ** Birthday *)

Record Birthday : Type := mkBirthday { birthday_value : string; birthday_date : Date.date }.

Definition Birthday_init (value : string) : result Birthday :=
  match Strptime.strptime_date value with
  | Some d => Ok (mkBirthday value d)
  | None => Raise (ValueError "Invalid date format. Use DD.MM.YYYY")
  end.

Definition Birthday_str (b : Birthday) : string := birthday_value b.

(** ** Record *)

Record record : Type :=
  mkRecord { name : string; phones : list Phone; birthday : option Birthday }.

(** [Record(name)] *)
Definition Record_init (name : string) : record := mkRecord name [] None.

Definition set_phones (ps : list Phone) : St record unit :=
  fun self => (Ok tt, mkRecord (name self) ps (birthday self)).

Definition set_birthday (b : option Birthday) : St record unit :=
  fun self => (Ok tt, mkRecord (name self) (phones self) b).

Definition Record_add_phone (phone_number : string) : St record unit :=
  (p <- lift (Phone_init phone_number) ;;
   self <- get_state ;;
   set_phones (phones self ++ [p])%list)%cmd.

Definition Record_remove_phone (phone_number : string) : St record unit :=
  (self <- get_state ;;
   set_phones (filter (fun p => negb (String.eqb (Phone_str p) phone_number))
                      (phones self)))%cmd.

(** The loop of [edit_phone] over the list [self.phones], whose elements
    are mutated in place: the first phone whose text is [old_number] goes
    through the setter, and the method returns. *)
Fixpoint edit_phone_loop (old_number new_number : string) (ps : list Phone)
  : result unit * list Phone :=
  match ps with
  | [] => (Raise (ValueError "Phone number not found"), [])
  | phone :: rest =>
      if String.eqb (Phone_str phone) old_number then
        let '(r, phone') := Phone_set_value new_number phone in
        (r, phone' :: rest)
      else
        let '(r, rest') := edit_phone_loop old_number new_number rest in
        (r, phone :: rest')
  end.

Definition Record_edit_phone (old_number new_number : string) : St record unit :=
  fun self =>
    let '(r, ps) := edit_phone_loop old_number new_number (phones self) in
    (r, mkRecord (name self) ps (birthday self)).

Definition Record_add_birthday (value : string) : St record unit :=
  (b <- lift (Birthday_init value) ;;
   set_birthday (Some b))%cmd.

Definition Record_str (self : record) : string :=
  "Contact name: " ++ name self ++ ", phones: "
  ++ PyStr.join "; " (map phone_value (phones self)).

(** ** Python's [dict] with string keys: insertion-ordered, one entry per key *)

Module PyDict.
Section WithValue.
Variable V : Type.

Definition t : Type := list (string * V).

Definition keys (d : t) : list string := map fst d.
Definition values (d : t) : list V := map snd d.

(** [d.get(k)] *)
Fixpoint get (d : t) (k : string) : option V :=
  match d with
  | [] => None
  | (k', v) :: rest => if String.eqb k' k then Some v else get rest k
  end.

(** [d[k] = v]: an existing key keeps its place, a new one goes last. *)
Fixpoint set (d : t) (k : string) (v : V) : t :=
  match d with
  | [] => [(k, v)]
  | (k', v') :: rest =>
      if String.eqb k' k then (k', v) :: rest else (k', v') :: set rest k v
  end.

(** [k in d] *)
Definition mem (d : t) (k : string) : bool :=
  match get d k with Some _ => true | None => false end.

(** [del d[k]] *)
Fixpoint del (d : t) (k : string) : t :=
  match d with
  | [] => []
  | (k', v') :: rest =>
      if String.eqb k' k then rest else (k', v') :: del rest k
  end.

(** How many entries carry the key [k]. *)
Definition count (d : t) (k : string) : nat :=
  List.length (filter (fun e => String.eqb (fst e) k) d).

(** The representation invariant of a dict. *)
Definition wf (d : t) : Prop := NoDup (keys d).
End WithValue.

Arguments keys {V} d.
Arguments values {V} d.
Arguments get {V} d k.
Arguments set {V} d k v.
Arguments mem {V} d k.
Arguments del {V} d k.
Arguments count {V} d k.
Arguments wf {V} d.
End PyDict.

(** ** AddressBook *)

Definition AddressBook : Type := PyDict.t record.

Definition AddressBook_add_record (self : AddressBook) (r : record) : AddressBook :=
  PyDict.set self (name r) r.

Definition AddressBook_find (self : AddressBook) (name : string) : option record :=
  PyDict.get self name.

Definition AddressBook_delete (self : AddressBook) (name : string) : AddressBook :=
  if PyDict.mem self name then PyDict.del self name else self.

(** One element of the list [get_upcoming_birthdays] returns: the dict
    with the keys ["name"] and ["congratulation_date"]. *)
Record congratulation : Type :=
  mkCongratulation { c_name : string; congratulation_date : string }.

(** The body of the [for] loop for one [user]: [None] stands for the
    [continue] and for a failed window test, [Some] for the [append]. *)
Definition upcoming_step (today : Date.date) (days : Z) (user : record)
  : result (option congratulation) :=
  match birthday user with
  | None => Ok None
  | Some b =>
      (birthday_this_year <~ Date.replace_year (birthday_date b) (Date.year today) ;;
       birthday_this_year <~
         (if Date.lt birthday_this_year today
          then Date.replace_year birthday_this_year (Date.year today + 1)
          else Ok birthday_this_year) ;;
       let delta := Date.sub_days birthday_this_year today in
       if (0 <=? delta) && (delta <=? days)
       then Ok (Some (mkCongratulation (name user)
                                       (Date.strftime_Ymd birthday_this_year)))
       else Ok None)%res
  end.

Fixpoint upcoming_loop (today : Date.date) (days : Z) (users : list record)
         (upcoming_birthdays : list congratulation) : result (list congratulation) :=
  match users with
  | [] => Ok upcoming_birthdays
  | user :: rest =>
      (r <~ upcoming_step today days user ;;
       upcoming_loop today days rest
         (match r with
          | Some c => (upcoming_birthdays ++ [c])%list
          | None => upcoming_birthdays
          end))%res
  end.

(** [self.get_upcoming_birthdays(days)], with the clock's date as [today]. *)
Definition AddressBook_get_upcoming_birthdays
           (today : Date.date) (self : AddressBook) (days : Z)
  : result (list congratulation) :=
  upcoming_loop today days (PyDict.values self) [].

(** ** The state the commands work on, and the monad of a command body

    A command receives the book and the user interface.  The book is one
    shared object: a record found in it is the object stored in it, so a
    method called through the local variable changes the book's entry.
    The interface is modelled by the list of messages shown so far. *)

Record world : Type := mkWorld { book : AddressBook; shown : list string }.

Definition M (A : Type) : Type := St world A.

(** [book.find(name)] *)
Definition find_in_book (name : string) : M (option record) :=
  fun w => (Ok (AddressBook_find (book w) name), w).

(** [book.add_record(record)] *)
Definition add_to_book (r : record) : M unit :=
  fun w => (Ok tt, mkWorld (AddressBook_add_record (book w) r) (shown w)).

(** A method call [record.method(...)] on the record object that the book
    holds under [key]: what the method does to the object is seen in the
    book, whether the method returns or raises.  The commands call it only
    for a key they found or stored. *)
Definition call_on_record {A} (key : string) (method : St record A) : M A :=
  fun w => match PyDict.get (book w) key with
           | None => (Raise (AttributeError "'NoneType' object has no attribute"), w)
           | Some r =>
               let '(res, r') := method r in
               (res, mkWorld (PyDict.set (book w) key r') (shown w))
           end.

(** [ui.display_message(message)] *)
Definition display_message (message : string) : M unit :=
  fun w => (Ok tt, mkWorld (book w) (shown w ++ [message])%list).

(** [ui.display_all_contacts(contacts)] *)
Definition display_all_contacts (contacts : list record) : M unit :=
  fun w => (Ok tt, mkWorld (book w) (shown w ++ map Record_str contacts)%list).

(** The [ValueError] of a failed unpacking of [args]. *)
Definition unpack_error (at_least : bool) (expected got : nat) : exn :=
  ValueError ("not enough values to unpack (expected "
              ++ (if at_least then "at least " else "")
              ++ PyStr.of_nat expected ++ ", got " ++ PyStr.of_nat got ++ ")").

Definition too_many_error (expected : nat) : exn :=
  ValueError ("too many values to unpack (expected " ++ PyStr.of_nat expected ++ ")").

(** ** The decorator [input_error] *)

(** What a decorated command returns: [None], a message, or the caught
    [ValueError] object itself. *)
Inductive pyval : Type :=
| PyNone
| PyText (s : string)
| PyExn (e : exn).

Definition input_error (func : list string -> M unit) (args : list string) : M pyval :=
  fun w => match func args w with
           | (Ok tt, w') => (Ok PyNone, w')
           | (Raise KeyError, w') =>
               (Ok (PyText "Name not found. Please, check and try again."), w')
           | (Raise (ValueError msg), w') => (Ok (PyExn (ValueError msg)), w')
           | (Raise IndexError, w') => (Ok (PyText "Enter correct information."), w')
           | (Raise e, w') => (Raise e, w')
           end.

(** ** The command functions (bodies, before decoration)

    [if record:] holds for every [Record] object (the class defines neither
    [__bool__] nor [__len__]) and fails for [None]; [if phone:] holds for
    every string but the empty one.  A pattern on [args] stands for the
    unpacking assignment, its last case for the unpacking that raises. *)

Definition add_contact_body (args : list string) : M unit :=
  match args with
  | name :: phone :: _ =>
      (record <- find_in_book name ;;
       message <- match record with
                  | None => add_to_book (Record_init name) ;; ret "Contact added."
                  | Some _ => ret "Contact updated."
                  end ;;
       (if negb (String.eqb phone "")
        then call_on_record name (Record_add_phone phone)
        else ret tt) ;;
       display_message message)%cmd
  | _ => raise (unpack_error true 2 (List.length args))
  end.

Definition change_contact_body (args : list string) : M unit :=
  match args with
  | name :: old_phone :: new_phone :: _ =>
      (record <- find_in_book name ;;
       match record with
       | Some _ =>
           call_on_record name (Record_edit_phone old_phone new_phone) ;;
           display_message "Contact updated."
       | None => raise KeyError
       end)%cmd
  | _ => raise (unpack_error true 3 (List.length args))
  end.

Definition show_phone_body (args : list string) : M unit :=
  match args with
  | [name] =>
      (record <- find_in_book name ;;
       match record with
       | Some r => display_message (PyStr.join "; " (map Phone_str (phones r)))
       | None => raise KeyError
       end)%cmd
  | [] => raise (unpack_error false 1 0)
  | _ => raise (too_many_error 1)
  end.

Definition show_all : M unit :=
  fun w => display_all_contacts (PyDict.values (book w)) w.

Definition add_birthday_body (args : list string) : M unit :=
  match args with
  | name :: birthday :: _ =>
      (record <- find_in_book name ;;
       match record with
       | Some _ =>
           call_on_record name (Record_add_birthday birthday) ;;
           display_message "Birthday added."
       | None => raise KeyError
       end)%cmd
  | _ => raise IndexError
  end.

(** [str(record.birthday)] *)
Definition str_of_birthday (b : option Birthday) : string :=
  match b with
  | None => "None"
  | Some b => Birthday_str b
  end.

Definition show_birthday_body (args : list string) : M unit :=
  match args with
  | [name] =>
      (record <- find_in_book name ;;
       match record with
       | Some r => display_message (str_of_birthday (birthday r))
       | None => raise (AttributeError "'NoneType' object has no attribute 'birthday'")
       end)%cmd
  | [] => raise (unpack_error false 1 0)
  | _ => raise (too_many_error 1)
  end.

(** ** The decorated commands, as the program calls them *)

Definition add_contact : list string -> M pyval := input_error add_contact_body.
Definition change_contact : list string -> M pyval := input_error change_contact_body.
Definition show_phone : list string -> M pyval := input_error show_phone_body.
Definition add_birthday : list string -> M pyval := input_error add_birthday_body.
Definition show_birthday : list string -> M pyval := input_error show_birthday_body.

(** ** Predicates of the specification *)

(** Every key of the book is the name of the record stored under it. *)
Definition keys_match (b : AddressBook) : Prop :=
  Forall (fun e => fst e = name (snd e)) b.

(** A book as the program builds it: a dict whose keys are the names. *)
Definition book_inv (b : AddressBook) : Prop := PyDict.wf b /\ keys_match b.

(** Some phone of the record renders as [s]. *)
Definition renders (r : record) (s : string) : Prop :=
  In s (map Phone_str (phones r)).

(** A construction or call that raised. *)
Definition fails {A} (r : result A) : Prop := exists e, r = Raise e.

(** ** Inputs used in the examples *)

(** Ten times U+00B2 (superscript two). *)
Definition superscript_two : ascii := ascii_of_N 178.
Definition sup2_phone : string :=
  string_of_list_ascii (repeat superscript_two 10).

Definition w0 : world := mkWorld [] [].

(** A record with the same number twice, as two [add] commands leave it. *)
Definition twice : record :=
  mkRecord "Alice" [mkPhone "1111111111"; mkPhone "1111111111"] None.

(** The book of a world is a dict whose keys are the names. *)
Definition world_inv (w : world) : Prop := book_inv (book w).

(** A command keeps a property of the world, whether it returns or raises. *)
Definition preserves {A} (P : world -> Prop) (m : M A) : Prop :=
  forall w, P w -> P (snd (m w)).

(** A method never assigns to [self.name]. *)
Definition keeps_name {A} (m : St record A) : Prop :=
  forall r, name (snd (m r)) = name r.

(** Alice, known by one number. *)
Definition alice_book : AddressBook :=
  [("Alice", mkRecord "Alice" [mkPhone "1234567890"] None)].

(** A method leaves the record as it was whenever it raises. *)
Definition raises_clean {A} (m : St record A) : Prop :=
  forall r e r', m r = (Raise e, r') -> r' = r.

(** ** The upcoming birthdays, in the words of the specification *)

(** The occurrence of a birthday: its month and day on the current year,
    and on the next year when that date is strictly before today. *)
Definition occurrence (today birth : Date.date) : Date.date :=
  let this_year := Date.mkDate (Date.year today) (Date.month birth) (Date.day birth) in
  if Date.lt this_year today
  then Date.mkDate (Date.year today + 1) (Date.month birth) (Date.day birth)
  else this_year.

(** [0 <= occurrence - today <= window_days], in days. *)
Definition in_window (today : Date.date) (window_days : Z) (occ : Date.date) : bool :=
  (0 <=? Date.sub_days occ today) && (Date.sub_days occ today <=? window_days).

(** What one record contributes to the answer. *)
Definition upcoming_of (today : Date.date) (window_days : Z) (r : record)
  : option congratulation :=
  match birthday r with
  | None => None
  | Some b =>
      let occ := occurrence today (birthday_date b) in
      if in_window today window_days occ
      then Some (mkCongratulation (name r) (Date.strftime_Ymd occ))
      else None
  end.

(** The answer: the contributions of the records, in the book's order. *)
Definition upcoming_spec (today : Date.date) (window_days : Z) (b : AddressBook)
  : list congratulation :=
  flat_map (fun r => match upcoming_of today window_days r with
                     | Some c => [c]
                     | None => []
                     end)
           (PyDict.values b).

(** The triple is a date of the calendar. *)
Definition is_date (d : Date.date) : bool :=
  match Date.new (Date.year d) (Date.month d) (Date.day d) with
  | Ok _ => true
  | Raise _ => false
  end.

(** The record's birthday, if set, has its month and day in the current
    year and its occurrence in the calendar. *)
Definition reanchors (today : Date.date) (r : record) : bool :=
  match birthday r with
  | None => true
  | Some b =>
      is_date (Date.mkDate (Date.year today) (Date.month (birthday_date b))
                           (Date.day (birthday_date b)))
      && is_date (occurrence today (birthday_date b))
  end.

(** The birthday is the 29th of February. *)
Definition feb29 (r : record) : Prop :=
  exists b, birthday r = Some b
            /\ Date.month (birthday_date b) = 2 /\ Date.day (birthday_date b) = 29.

(** ** More inputs used in the examples *)

Definition today_2023_02_25 : Date.date := Date.mkDate 2023 2 25.

(** The world after [add Bob 0987654321] and [add-birthday Bob 29.02.2020]. *)
Definition w_bob : world :=
  snd (add_birthday ["Bob"; "29.02.2020"] (snd (add_contact ["Bob"; "0987654321"] w0))).

(** The world after [add Alice 1234567890] and
    [add-birthday Alice 28.02.1990]. *)
Definition w_alice : world :=
  snd (add_birthday ["Alice"; "28.02.1990"]
         (snd (add_contact ["Alice"; "1234567890"] w0))).

(** The same with Bob and his birthday added afterwards. *)
Definition w_alice_bob : world :=
  snd (add_birthday ["Bob"; "29.02.2020"]
         (snd (add_contact ["Bob"; "0987654321"] w_alice))).

(** ** The texts [Birthday] reads *)

(** The matcher cuts a token off the front of the text, and the token has
    one of the given lengths. *)
Definition cuts (mt : Strptime.matcher) (lens : list nat) : Prop :=
  forall s t r, In (t, r) (mt s) -> s = (t ++ r)%list /\ In (List.length t) lens.

(** The text DD.MM.YYYY of a date. *)
Definition format_dmy (d : Date.date) : string :=
  PyStr.zfill 2 (Date.day d) ++ "." ++ PyStr.zfill 2 (Date.month d)
  ++ "." ++ PyStr.zfill 4 (Date.year d).

(** The four-digit text of the year [y] is read back as [y]. *)
Definition year_text_ok (y : Z) : bool :=
  match Strptime.re_Y (PyStr.chars (PyStr.zfill 4 y)) with
  | [(t, [])] => (PyStr.to_int t =? y)
                 && (List.length (PyStr.chars (PyStr.zfill 4 y)) =? 4)%nat
  | _ => false
  end.

(** Text after the match does not change the match. *)
Definition extends (mt : Strptime.matcher) : Prop :=
  forall s t r0 r, In (t, r0) (mt s) -> In (t, (r0 ++ r)%list) (mt (s ++ r)%list).

(** No token of the matcher holds a full stop. *)
Definition nodot (mt : Strptime.matcher) : Prop :=
  forall s t r, In (t, r) (mt s) -> ~ In "."%char t.

(** The matcher can take the whole of [cs]. *)
Definition takes_all (mt : Strptime.matcher) (cs : list ascii) : bool :=
  existsb (fun tr => match snd tr with [] => true | _ :: _ => false end) (mt cs).

(** The two-digit text of [n] is a day (a month) and is read back as [n]. *)
Definition day_text_ok (n : Z) : bool :=
  takes_all Strptime.re_d (PyStr.chars (PyStr.zfill 2 n))
  && (PyStr.to_int (PyStr.chars (PyStr.zfill 2 n)) =? n).

Definition month_text_ok (n : Z) : bool :=
  takes_all Strptime.re_m (PyStr.chars (PyStr.zfill 2 n))
  && (PyStr.to_int (PyStr.chars (PyStr.zfill 2 n)) =? n).

(** ** What the commands can do to the book *)

(** [r'] is [r] after one of the three methods the commands call on a
    record of the book. *)
Definition method_result (r r' : record) : Prop :=
  (exists phone, r' = snd (Record_add_phone phone r))
  \/ (exists old_phone new_phone, r' = snd (Record_edit_phone old_phone new_phone r))
  \/ (exists value, r' = snd (Record_add_birthday value r)).

(** A property of books is kept by storing a fresh record and by a method
    called on a stored record. *)
Definition closed_under_commands (Q : AddressBook -> Prop) : Prop :=
  (forall b name, Q b -> Q (AddressBook_add_record b (Record_init name)))
  /\ (forall b key r r',
        Q b -> PyDict.get b key = Some r -> method_result r r' ->
        Q (PyDict.set b key r')).

(** A stored phone has ten digit characters. *)
Definition phone_valid (p : Phone) : Prop := phone_ok (phone_value p) = true.

(** A stored birthday carries the date its text spells. *)
Definition birthday_valid (b : Birthday) : Prop :=
  Strptime.strptime_date (birthday_value b) = Some (birthday_date b).

Definition record_valid (r : record) : Prop :=
  Forall phone_valid (phones r)
  /\ (forall b, birthday r = Some b -> birthday_valid b).

Definition book_valid (b : AddressBook) : Prop :=
  Forall (fun e => record_valid (snd e)) b.

(** The worlds the commands lead to from the empty book. *)
Inductive reachable : world -> Prop :=
| reach_start : reachable w0
| reach_add_contact args w : reachable w -> reachable (snd (add_contact args w))
| reach_change_contact args w : reachable w -> reachable (snd (change_contact args w))
| reach_show_phone args w : reachable w -> reachable (snd (show_phone args w))
| reach_show_all w : reachable w -> reachable (snd (show_all w))
| reach_add_birthday args w : reachable w -> reachable (snd (add_birthday args w))
| reach_show_birthday args w : reachable w -> reachable (snd (show_birthday args w)).

(** The exceptions [input_error] turns into a return value. *)
Definition caught (e : exn) : Prop :=
  match e with
  | KeyError | IndexError | ValueError _ => True
  | AttributeError _ => False
  end.

(** What a command did to the list of messages shown: one more message
    when it returned [None], nothing otherwise. *)
Definition shows_on_success (w : world) (out : result pyval * world) : Prop :=
  match fst out with
  | Ok PyNone => exists message, shown (snd out) = (shown w ++ [message])%list
  | Ok (PyText _) | Ok (PyExn _) | Raise _ => shown (snd out) = shown w
  end.

(** The record has a birthday set. *)
Definition has_birthday (r : record) : bool :=
  match birthday r with
  | Some _ => true
  | None => false
  end.

(** * Theorems *)

(** ** Strings *)


Lemma forallb_false_iff {A} (f : A -> bool) (l : list A) :
  forallb f l = false <-> exists x, In x l /\ f x = false.
Proof.
  induction l as [|a l IH]; simpl.
  - split; [discriminate | intros [x [[] _]]].
  - rewrite andb_false_iff, IH. split.
    + intros [Ha | [x [Hx Hf]]]; eauto.
    + intros [x [[<- | Hx] Hf]]; eauto.
Qed.

Lemma isdigit_forallb (s : string) :
  s <> "" -> PyStr.isdigit s = forallb PyStr.isdigit_char (PyStr.chars s).
Proof.
  destruct s; [congruence | reflexivity].
Qed.

Lemma decimal_is_digit (c : ascii) :
  PyStr.is_decimal_char c = true -> PyStr.isdigit_char c = true.
Proof.
  unfold PyStr.isdigit_char. intros ->. reflexivity.
Qed.

(** ** Phone *)

Lemma phone_ok_iff (s : string) :
  phone_ok s = true <->
  PyStr.len s = 10%nat /\ forall c, In c (PyStr.chars s) -> PyStr.isdigit_char c = true.
Proof.
  unfold phone_ok. rewrite andb_true_iff, Nat.eqb_eq.
  split; intros [Hlen H]; split; trivial.
  - rewrite isdigit_forallb in H by (intros ->; discriminate).
    now apply forallb_forall.
  - rewrite isdigit_forallb by (intros ->; discriminate).
    now apply forallb_forall.
Qed.

Lemma Phone_init_cases (s : string) :
  (phone_ok s = true /\ Phone_init s = Ok (mkPhone s))
  \/ (phone_ok s = false /\ Phone_init s = Raise (ValueError "Invalid phone format")).
Proof.
  unfold Phone_init. destruct (phone_ok s); [left | right]; split; reflexivity.
Qed.

Lemma isdigit_char_code_points (c : ascii) :
  PyStr.isdigit_char c = true <->
  (48 <= PyStr.ord c <= 57 \/ PyStr.ord c = 178 \/ PyStr.ord c = 179
   \/ PyStr.ord c = 185)%N.
Proof.
  unfold PyStr.isdigit_char, PyStr.is_decimal_char.
  rewrite !orb_true_iff, andb_true_iff, !N.leb_le, !N.eqb_eq. tauto.
Qed.

(** C7: the constructor accepts exactly the texts of ten characters each of
    which is an ASCII digit or one of the superscripts U+00B2, U+00B3 and
    U+00B9, which [str.isdigit] takes for digits; an accepted text is
    rendered unchanged and every rejection is the [ValueError] "Invalid
    phone format".  So ten superscript twos, not one of them a decimal
    digit, make a phone, where the claim has the construction fail. *)
Theorem Phone_init_digit_characters (s : string) :
  ((exists p, Phone_init s = Ok p) <->
     (PyStr.len s = 10%nat
      /\ forall c, In c (PyStr.chars s) ->
           (48 <= PyStr.ord c <= 57 \/ PyStr.ord c = 178 \/ PyStr.ord c = 179
            \/ PyStr.ord c = 185)%N))
  /\ (forall p, Phone_init s = Ok p -> Phone_str p = s)
  /\ (forall e, Phone_init s = Raise e -> e = ValueError "Invalid phone format")
  /\ (Phone_init sup2_phone = Ok (mkPhone sup2_phone)
      /\ PyStr.len sup2_phone = 10%nat
      /\ (forall c, In c (PyStr.chars sup2_phone) -> PyStr.is_decimal_char c = false)
      /\ add_contact ["Alice"; sup2_phone] w0
         = (Ok PyNone,
            mkWorld [("Alice", mkRecord "Alice" [mkPhone sup2_phone] None)]
                    ["Contact added."])).
Proof.
  refine (conj _ (conj _ (conj _ _))).
  - split.
    + intros [p Hp]. destruct (Phone_init_cases s) as [[Hok _] | [_ H]]; [|congruence].
      apply phone_ok_iff in Hok as [Hlen Hall]. split; [exact Hlen|].
      intros c Hc. apply isdigit_char_code_points. now apply Hall.
    + intros [Hlen Hall].
      assert (Hok : phone_ok s = true).
      { apply phone_ok_iff. split; [exact Hlen|].
        intros c Hc. apply isdigit_char_code_points. now apply Hall. }
      destruct (Phone_init_cases s) as [[_ H] | [H _]]; [|congruence].
      eexists; exact H.
  - intros p Hp. destruct (Phone_init_cases s) as [[_ H] | [_ H]]; [|congruence].
    rewrite H in Hp. injection Hp as <-. reflexivity.
  - intros e He. destruct (Phone_init_cases s) as [[_ H] | [_ H]]; congruence.
  - refine (conj eq_refl (conj eq_refl (conj _ eq_refl))).
    intros c Hc. simpl in Hc.
    repeat (destruct Hc as [<- | Hc]; [reflexivity|]). destruct Hc.
Qed.

(** The witness: the text "0123456789". *)
Lemma Phone_init_digit_characters_witness :
  exists p, Phone_init "0123456789" = Ok p.
Proof.
  apply (proj2 (proj1 (Phone_init_digit_characters "0123456789"))).
  split; [reflexivity|].
  intros c Hc. simpl in Hc. left.
  repeat (destruct Hc as [<- | Hc];
          [vm_compute; split; intros H; discriminate H|]).
  destruct Hc.
Defined.

(** ** Record.edit_phone *)

Lemma record_eta (r : record) : mkRecord (name r) (phones r) (birthday r) = r.
Proof. destruct r; reflexivity. Qed.

Lemma Phone_set_value_cases (new_number : string) (p : Phone) :
  (phone_ok new_number = true
   /\ Phone_set_value new_number p = (Ok tt, mkPhone new_number))
  \/ (phone_ok new_number = false
      /\ Phone_set_value new_number p = (Raise (ValueError "Invalid phone format"), p)).
Proof.
  unfold Phone_set_value. destruct (phone_ok new_number); [left | right]; split; reflexivity.
Qed.

Lemma edit_phone_loop_not_found (old_number new_number : string) (ps : list Phone) :
  ~ In old_number (map Phone_str ps) ->
  edit_phone_loop old_number new_number ps
  = (Raise (ValueError "Phone number not found"), ps).
Proof.
  induction ps as [|p ps IH]; intros Hnot; simpl; [reflexivity|].
  destruct (String.eqb_spec (Phone_str p) old_number) as [Heq | Hne].
  - exfalso. apply Hnot. now left.
  - rewrite IH; [reflexivity|]. intros Hin. apply Hnot. now right.
Qed.

Lemma edit_phone_loop_found (old_number new_number : string) (l1 l2 : list Phone) (p : Phone) :
  ~ In old_number (map Phone_str l1) ->
  Phone_str p = old_number ->
  edit_phone_loop old_number new_number (l1 ++ p :: l2)%list
  = (fst (Phone_set_value new_number p),
     (l1 ++ snd (Phone_set_value new_number p) :: l2)%list).
Proof.
  intros Hnot Hp. induction l1 as [|q l1 IH]; simpl.
  - rewrite Hp, String.eqb_refl. now destruct (Phone_set_value new_number p).
  - destruct (String.eqb_spec (Phone_str q) old_number) as [Heq | Hne].
    + exfalso. apply Hnot. now left.
    + rewrite IH; [reflexivity|]. intros Hin. apply Hnot. now right.
Qed.

(** The first phone that renders as [old_number] splits the list. *)
Lemma first_match_split (old_number : string) (ps : list Phone) :
  In old_number (map Phone_str ps) ->
  exists l1 p l2, ps = (l1 ++ p :: l2)%list
                  /\ ~ In old_number (map Phone_str l1)
                  /\ Phone_str p = old_number.
Proof.
  induction ps as [|q ps IH]; simpl; [intros []|]. intros Hin.
  destruct (string_dec (Phone_str q) old_number) as [Heq | Hne].
  - exists [], q, ps. repeat split; auto.
  - destruct Hin as [Hq | Hin]; [contradiction|].
    destruct (IH Hin) as (l1 & p & l2 & -> & Hnot & Hp).
    exists (q :: l1), p, l2. repeat split; auto.
    simpl. intros [H | H]; auto.
Qed.

(** C6 (as amended): [edit_phone] fails with "Phone number not found" and
    leaves the record as it was when no phone renders as [old]; when one
    does and [new] is invalid it fails with the validation error and leaves
    the record as it was; otherwise it puts [new] in the place of the first
    phone that renders as [old] and keeps every other phone and the order,
    so [new] matches afterwards, and [old] no longer matches provided
    [old] differs from [new] and no later phone rendered as [old]. *)
Theorem Record_edit_phone_spec (self : record) (old_number new_number : string) :
  (~ renders self old_number ->
   Record_edit_phone old_number new_number self
   = (Raise (ValueError "Phone number not found"), self))
  /\ (renders self old_number -> phone_ok new_number = false ->
      Record_edit_phone old_number new_number self
      = (Raise (ValueError "Invalid phone format"), self))
  /\ (renders self old_number -> phone_ok new_number = true ->
      exists l1 p l2 self',
        phones self = (l1 ++ p :: l2)%list
        /\ ~ In old_number (map Phone_str l1)
        /\ Phone_str p = old_number
        /\ Record_edit_phone old_number new_number self = (Ok tt, self')
        /\ self' = mkRecord (name self) (l1 ++ mkPhone new_number :: l2)%list
                            (birthday self)
        /\ renders self' new_number
        /\ (old_number <> new_number ->
            ~ In old_number (map Phone_str l2) -> ~ renders self' old_number)).
Proof.
  unfold Record_edit_phone, renders. split; [|split].
  - intros Hnot. rewrite edit_phone_loop_not_found by assumption.
    now rewrite record_eta.
  - intros Hin Hbad.
    destruct (first_match_split _ _ Hin) as (l1 & p & l2 & Hps & Hnot & Hp).
    rewrite Hps, edit_phone_loop_found by assumption.
    destruct (Phone_set_value_cases new_number p) as [[H _] | [_ ->]]; [congruence|].
    simpl. rewrite <- Hps. now rewrite record_eta.
  - intros Hin Hgood.
    destruct (first_match_split _ _ Hin) as (l1 & p & l2 & Hps & Hnot & Hp).
    exists l1, p, l2. eexists. repeat split; try eassumption.
    + rewrite Hps, edit_phone_loop_found by assumption.
      destruct (Phone_set_value_cases new_number p) as [[_ ->] | [H _]]; [|congruence].
      reflexivity.
    + simpl. rewrite map_app. apply in_or_app. right. now left.
    + intros Hne Hl2. simpl. rewrite map_app. intros H.
      apply in_app_or in H as [H | [H | H]]; auto.
Qed.

(** The witness: changing the first of Alice's two equal numbers. *)
Lemma Record_edit_phone_spec_witness :
  exists l1 p l2 self',
    phones twice = (l1 ++ p :: l2)%list
    /\ ~ In "1111111111" (map Phone_str l1)
    /\ Phone_str p = "1111111111"
    /\ Record_edit_phone "1111111111" "2222222222" twice = (Ok tt, self')
    /\ self' = mkRecord (name twice) (l1 ++ mkPhone "2222222222" :: l2)%list
                        (birthday twice)
    /\ renders self' "2222222222"
    /\ ("1111111111" <> "2222222222" ->
        ~ In "1111111111" (map Phone_str l2) -> ~ renders self' "1111111111").
Proof.
  apply (proj2 (proj2 (Record_edit_phone_spec twice "1111111111" "2222222222"))).
  - left. reflexivity.
  - reflexivity.
Defined.

(** C6 (as stated) fails on a record that holds the old number twice: the
    edit succeeds, and the old number still matches the second phone. *)
Lemma Record_edit_phone_duplicate_counterexample :
  ~ (forall self',
        Record_edit_phone "1111111111" "2222222222" twice = (Ok tt, self') ->
        renders self' "2222222222" /\ ~ renders self' "1111111111").
Proof.
  intros H.
  destruct (H (mkRecord "Alice" [mkPhone "2222222222"; mkPhone "1111111111"] None)
              eq_refl) as [_ Hno].
  apply Hno. right. left. reflexivity.
Qed.

(** ** The dict operations *)

Section DictFacts.
Context {V : Type}.
Implicit Types (d : PyDict.t V) (k : string) (v : V).

Lemma get_set_same d k v : PyDict.get (PyDict.set d k v) k = Some v.
Proof.
  induction d as [|[k' v'] d IH]; simpl.
  - now rewrite String.eqb_refl.
  - destruct (String.eqb_spec k' k) as [-> | Hne]; simpl.
    + now rewrite String.eqb_refl.
    + destruct (String.eqb_spec k' k); [contradiction | exact IH].
Qed.

Lemma get_set_other d k k' v :
  k' <> k -> PyDict.get (PyDict.set d k v) k' = PyDict.get d k'.
Proof.
  intros Hne. induction d as [|[k0 v0] d IH]; simpl.
  - destruct (String.eqb_spec k k'); [congruence | reflexivity].
  - destruct (String.eqb_spec k0 k) as [-> | H0]; simpl.
    + destruct (String.eqb_spec k k'); [congruence | reflexivity].
    + now rewrite IH.
Qed.

Lemma get_None_iff d k : PyDict.get d k = None <-> ~ In k (PyDict.keys d).
Proof.
  induction d as [|[k' v'] d IH]; simpl; [tauto|].
  destruct (String.eqb_spec k' k) as [-> | Hne].
  - split; [discriminate | intros H; exfalso; auto].
  - rewrite IH. tauto.
Qed.

Lemma get_Some_In d k v : PyDict.get d k = Some v -> In (k, v) d.
Proof.
  induction d as [|[k' v'] d IH]; simpl; [discriminate|].
  destruct (String.eqb_spec k' k) as [-> | Hne].
  - intros [= ->]. now left.
  - intros H. right. auto.
Qed.

Lemma set_get_id d k v : PyDict.get d k = Some v -> PyDict.set d k v = d.
Proof.
  induction d as [|[k' v'] d IH]; simpl; [discriminate|].
  destruct (String.eqb_spec k' k) as [-> | Hne].
  - now intros [= ->].
  - intros H. now rewrite IH.
Qed.

Lemma keys_set d k v :
  PyDict.keys (PyDict.set d k v)
  = if PyDict.mem d k then PyDict.keys d else (PyDict.keys d ++ [k])%list.
Proof.
  unfold PyDict.mem. induction d as [|[k' v'] d IH]; simpl; [reflexivity|].
  destruct (String.eqb_spec k' k) as [-> | Hne]; simpl; [reflexivity|].
  rewrite IH. now destruct (PyDict.get d k).
Qed.

Lemma wf_set d k v : PyDict.wf d -> PyDict.wf (PyDict.set d k v).
Proof.
  unfold PyDict.wf. intros Hwf. rewrite keys_set. unfold PyDict.mem.
  destruct (PyDict.get d k) eqn:Hget; [assumption|].
  apply get_None_iff in Hget.
  apply NoDup_rev in Hwf. rewrite <- (rev_involutive (_ ++ _)).
  apply NoDup_rev. rewrite rev_app_distr. simpl.
  constructor; [now rewrite <- in_rev | assumption].
Qed.

Lemma del_incl d k x : In x (PyDict.keys (PyDict.del d k)) -> In x (PyDict.keys d).
Proof.
  induction d as [|[k' v'] d IH]; simpl; [tauto|].
  destruct (String.eqb k' k); simpl; [now right|].
  intros [H | H]; auto.
Qed.

Lemma wf_del d k : PyDict.wf d -> PyDict.wf (PyDict.del d k).
Proof.
  unfold PyDict.wf. induction d as [|[k' v'] d IH]; simpl; [trivial|].
  intros Hwf. inversion Hwf as [|? ? Hnot Hrest]; subst.
  destruct (String.eqb k' k); simpl; [assumption|].
  constructor; [|auto]. intros Hin. apply Hnot. eapply del_incl; eassumption.
Qed.

Lemma count_absent d k : ~ In k (PyDict.keys d) -> PyDict.count d k = 0%nat.
Proof.
  unfold PyDict.count. induction d as [|[k' v'] d IH]; simpl; [reflexivity|].
  intros Hnot. destruct (String.eqb_spec k' k) as [-> | Hne]; [exfalso; auto|].
  apply IH. auto.
Qed.

Lemma count_set d k v : PyDict.wf d -> PyDict.count (PyDict.set d k v) k = 1%nat.
Proof.
  unfold PyDict.wf, PyDict.count.
  induction d as [|[k' v'] d IH]; simpl; intros Hwf.
  - now rewrite String.eqb_refl.
  - inversion Hwf as [|? ? Hnot Hrest]; subst.
    destruct (String.eqb_spec k' k) as [-> | Hne]; simpl.
    + rewrite String.eqb_refl. simpl. f_equal. now apply count_absent.
    + destruct (String.eqb_spec k' k); [contradiction | auto].
Qed.

End DictFacts.

(** ** The book's invariant *)

Lemma keys_match_set (b : AddressBook) (k : string) (r : record) :
  k = name r -> keys_match b -> keys_match (PyDict.set b k r).
Proof.
  unfold keys_match. intros Hk. induction 1 as [|[k' r'] b Hhd Htl IH]; simpl.
  - repeat constructor. exact Hk.
  - destruct (String.eqb_spec k' k) as [-> | Hne]; constructor; auto.
Qed.

Lemma keys_match_del (b : AddressBook) (k : string) :
  keys_match b -> keys_match (PyDict.del b k).
Proof.
  unfold keys_match. induction 1 as [|[k' r'] b Hhd Htl IH]; simpl.
  - constructor.
  - destruct (String.eqb k' k); [assumption | now constructor].
Qed.

Lemma keys_match_get (b : AddressBook) (k : string) (r : record) :
  keys_match b -> PyDict.get b k = Some r -> name r = k.
Proof.
  intros Hm Hget. apply get_Some_In in Hget.
  unfold keys_match in Hm. rewrite Forall_forall in Hm.
  symmetry. exact (Hm _ Hget).
Qed.

Lemma book_inv_add_record (b : AddressBook) (r : record) :
  book_inv b -> book_inv (AddressBook_add_record b r).
Proof.
  intros [Hwf Hm]. split; [now apply wf_set | now apply keys_match_set].
Qed.

Lemma book_inv_delete (b : AddressBook) (n : string) :
  book_inv b -> book_inv (AddressBook_delete b n).
Proof.
  intros [Hwf Hm]. unfold AddressBook_delete.
  destruct (PyDict.mem b n); split; auto using wf_del, keys_match_del.
Qed.

(** ** Commands keep the invariant *)

Lemma preserves_ret {A} (P : world -> Prop) (a : A) : preserves P (ret a).
Proof. intros w Hw. exact Hw. Qed.

Lemma preserves_raise {A} (P : world -> Prop) (e : exn) : preserves P (@raise world A e).
Proof. intros w Hw. exact Hw. Qed.

Lemma preserves_bind {A B} (P : world -> Prop) (m : M A) (k : A -> M B) :
  preserves P m -> (forall a, preserves P (k a)) -> preserves P (bind m k).
Proof.
  intros Hm Hk w Hw. unfold bind. specialize (Hm w Hw).
  destruct (m w) as [[a | e] w']; simpl in *; [now apply Hk | exact Hm].
Qed.

Lemma preserves_input_error (P : world -> Prop) (func : list string -> M unit) args :
  preserves P (func args) -> preserves P (input_error func args).
Proof.
  intros Hf w Hw. unfold input_error. specialize (Hf w Hw).
  destruct (func args w) as [[[] | e] w']; simpl in *; [exact Hf|].
  destruct e; exact Hf.
Qed.

Lemma preserves_find name : preserves world_inv (find_in_book name).
Proof. intros w Hw. exact Hw. Qed.

Lemma preserves_display message : preserves world_inv (display_message message).
Proof. intros w Hw. exact Hw. Qed.

Lemma preserves_add_to_book r : preserves world_inv (add_to_book r).
Proof. intros w Hw. now apply book_inv_add_record. Qed.

Lemma preserves_call_on_record {A} key (method : St record A) :
  keeps_name method -> preserves world_inv (call_on_record key method).
Proof.
  intros Hname w [Hwf Hm]. unfold call_on_record.
  destruct (PyDict.get (book w) key) as [r|] eqn:Hget; [|split; assumption].
  specialize (Hname r). destruct (method r) as [res r']. simpl in *.
  split; [now apply wf_set|]. apply keys_match_set; [|assumption].
  rewrite Hname. symmetry. eapply keys_match_get; eassumption.
Qed.

Lemma keeps_name_add_phone phone_number : keeps_name (Record_add_phone phone_number).
Proof.
  intros r. unfold Record_add_phone, bind, lift.
  destruct (Phone_init phone_number); reflexivity.
Qed.

Lemma keeps_name_remove_phone phone_number : keeps_name (Record_remove_phone phone_number).
Proof. intros r. reflexivity. Qed.

Lemma keeps_name_edit_phone old_number new_number :
  keeps_name (Record_edit_phone old_number new_number).
Proof.
  intros r. unfold Record_edit_phone.
  now destruct (edit_phone_loop old_number new_number (phones r)).
Qed.

Lemma keeps_name_add_birthday value : keeps_name (Record_add_birthday value).
Proof.
  intros r. unfold Record_add_birthday, bind, lift.
  destruct (Birthday_init value); reflexivity.
Qed.

Create HintDb keep discriminated.
#[local] Hint Resolve preserves_ret preserves_raise preserves_find preserves_display
  preserves_add_to_book preserves_call_on_record keeps_name_add_phone
  keeps_name_edit_phone keeps_name_add_birthday : keep.

Ltac keep_step :=
  first [ apply preserves_input_error
        | apply preserves_bind; [|intro]
        | solve [auto with keep] ].

Lemma preserves_add_contact args : preserves world_inv (add_contact args).
Proof.
  unfold add_contact. keep_step. unfold add_contact_body.
  destruct args as [|name [|phone rest]]; try solve [auto with keep].
  do 2 keep_step.
  - destruct a; repeat keep_step.
  - keep_step; [|auto with keep].
    destruct (negb (phone =? "")%string); auto with keep.
Qed.

Lemma preserves_change_contact args : preserves world_inv (change_contact args).
Proof.
  unfold change_contact. keep_step. unfold change_contact_body.
  destruct args as [|name [|old_phone [|new_phone rest]]]; try solve [auto with keep].
  keep_step; [auto with keep|]. destruct a; repeat keep_step.
Qed.

Lemma preserves_show_phone args : preserves world_inv (show_phone args).
Proof.
  unfold show_phone. keep_step. unfold show_phone_body.
  destruct args as [|name [|x rest]]; try solve [auto with keep].
  keep_step; [auto with keep|]. destruct a; auto with keep.
Qed.

Lemma preserves_add_birthday args : preserves world_inv (add_birthday args).
Proof.
  unfold add_birthday. keep_step. unfold add_birthday_body.
  destruct args as [|name [|value rest]]; try solve [auto with keep].
  keep_step; [auto with keep|]. destruct a; repeat keep_step.
Qed.

Lemma preserves_show_birthday args : preserves world_inv (show_birthday args).
Proof.
  unfold show_birthday. keep_step. unfold show_birthday_body.
  destruct args as [|name [|x rest]]; try solve [auto with keep].
  keep_step; [auto with keep|]. destruct a; auto with keep.
Qed.

Lemma preserves_show_all : preserves world_inv show_all.
Proof. intros w Hw. exact Hw. Qed.

(** C8: after [add_record(r)] the lookup of [r]'s name finds a record of
    that name ([r] itself); the book, a dict, then has exactly one entry for
    the key, and its keys are the same as before when the name was already
    there; and [add_record], [delete] and every command keep the invariant
    that the book is a dict in which every key is the name of its record. *)
Theorem AddressBook_add_find_invariant (b : AddressBook) (r : record) :
  (exists r', AddressBook_find (AddressBook_add_record b r) (name r) = Some r'
              /\ name r' = name r /\ r' = r)
  /\ (PyDict.wf b ->
      PyDict.wf (AddressBook_add_record b r)
      /\ PyDict.count (AddressBook_add_record b r) (name r) = 1%nat)
  /\ (PyDict.mem b (name r) = true ->
      PyDict.keys (AddressBook_add_record b r) = PyDict.keys b)
  /\ (book_inv b ->
      book_inv (AddressBook_add_record b r)
      /\ (forall n, book_inv (AddressBook_delete b n))
      /\ (forall args out,
            let w := mkWorld b out in
            book_inv (book (snd (add_contact args w)))
            /\ book_inv (book (snd (change_contact args w)))
            /\ book_inv (book (snd (show_phone args w)))
            /\ book_inv (book (snd (add_birthday args w)))
            /\ book_inv (book (snd (show_birthday args w)))
            /\ book_inv (book (snd (show_all w))))).
Proof.
  refine (conj _ (conj _ (conj _ _))).
  - exists r. unfold AddressBook_find, AddressBook_add_record.
    now rewrite get_set_same.
  - intros Hwf. split; [now apply wf_set | now apply count_set].
  - intros Hmem. unfold AddressBook_add_record. now rewrite keys_set, Hmem.
  - intros Hinv. refine (conj _ (conj _ _)).
    + now apply book_inv_add_record.
    + intros n. now apply book_inv_delete.
    + intros args out w.
      refine (conj _ (conj _ (conj _ (conj _ (conj _ _))))).
      * now apply preserves_add_contact.
      * now apply preserves_change_contact.
      * now apply preserves_show_phone.
      * now apply preserves_add_birthday.
      * now apply preserves_show_birthday.
      * now apply preserves_show_all.
Qed.

(** The witness: Alice's record added again to the book that has it. *)
Lemma AddressBook_add_find_invariant_witness :
  book_inv (AddressBook_add_record alice_book (Record_init "Alice")).
Proof.
  refine (proj1 (proj2 (proj2 (proj2
            (AddressBook_add_find_invariant alice_book (Record_init "Alice"))))
            _)).
  split.
  - unfold PyDict.wf. simpl. constructor; [intros [] | constructor].
  - unfold keys_match, alice_book. repeat constructor.
Defined.

(** ** The commands, one by one *)

Ltac run_cmd :=
  unfold add_contact, change_contact, show_phone, add_birthday, show_birthday,
    input_error, add_contact_body, change_contact_body, show_phone_body,
    add_birthday_body, show_birthday_body, bind, ret, raise, find_in_book,
    add_to_book, display_message, AddressBook_find; simpl.

(** C9: [add] with the empty string as phone raises nothing and returns
    [None]: for a name not in the book it stores a new record without
    phones and shows "Contact added."; for a name in the book it leaves the
    book as it is (no phone is appended) and shows "Contact updated.". *)
Theorem add_contact_empty_phone (name : string) (rest : list string) (w : world) :
  add_contact (name :: "" :: rest) w
  = match AddressBook_find (book w) name with
    | None =>
        (Ok PyNone,
         mkWorld (AddressBook_add_record (book w) (Record_init name))
                 (shown w ++ ["Contact added."]))
    | Some _ => (Ok PyNone, mkWorld (book w) (shown w ++ ["Contact updated."]))
    end
  /\ match AddressBook_find (book w) name with
     | None =>
         exists r,
           AddressBook_find (book (snd (add_contact (name :: "" :: rest) w))) name
           = Some r /\ phones r = []
     | Some r =>
         AddressBook_find (book (snd (add_contact (name :: "" :: rest) w))) name
         = Some r
     end.
Proof.
  assert (Hrun : add_contact (name :: "" :: rest) w
                 = match AddressBook_find (book w) name with
                   | None =>
                       (Ok PyNone,
                        mkWorld (AddressBook_add_record (book w) (Record_init name))
                                (shown w ++ ["Contact added."]))
                   | Some _ =>
                       (Ok PyNone, mkWorld (book w) (shown w ++ ["Contact updated."]))
                   end).
  { run_cmd. destruct (PyDict.get (book w) name); reflexivity. }
  split; [exact Hrun|]. rewrite Hrun. unfold AddressBook_find.
  destruct (PyDict.get (book w) name) as [r|] eqn:Hget; simpl.
  - exact Hget.
  - exists (Record_init name). unfold AddressBook_add_record. simpl.
    now rewrite get_set_same.
Qed.

(** C10: [show-birthday] for a contact without a birthday returns [None]
    and shows the text "None"; the book stays as it is. *)
Theorem show_birthday_unset (w : world) (name : string) (r : record) :
  AddressBook_find (book w) name = Some r ->
  birthday r = None ->
  show_birthday [name] w = (Ok PyNone, mkWorld (book w) (shown w ++ ["None"])).
Proof.
  intros Hfind Hnone. run_cmd. unfold AddressBook_find in Hfind.
  now rewrite Hfind, Hnone.
Qed.

(** The witness: Alice, who has a number and no birthday. *)
Lemma show_birthday_unset_witness :
  show_birthday ["Alice"] (mkWorld alice_book [])
  = (Ok PyNone, mkWorld alice_book ["None"]).
Proof.
  apply (show_birthday_unset (mkWorld alice_book []) "Alice"
           (mkRecord "Alice" [mkPhone "1234567890"] None)); reflexivity.
Defined.

(** C5: for a name that is not in the book, [phone] returns the message
    "Name not found. Please, check and try again.", whereas [show-birthday]
    reads [record.birthday] of [None]: the [AttributeError] is none of the
    exceptions [input_error] catches and leaves the command.  Both leave
    the book as it is. *)
Theorem show_commands_absent_name (w : world) (name : string) :
  AddressBook_find (book w) name = None ->
  show_phone [name] w
  = (Ok (PyText "Name not found. Please, check and try again."), w)
  /\ show_birthday [name] w
     = (Raise (AttributeError "'NoneType' object has no attribute 'birthday'"), w).
Proof.
  intros Hfind. unfold AddressBook_find in Hfind.
  split; run_cmd; now rewrite Hfind.
Qed.

(** The witness: Bob looked up in the empty book. *)
Lemma show_commands_absent_name_witness :
  show_phone ["Bob"] w0
  = (Ok (PyText "Name not found. Please, check and try again."), w0)
  /\ show_birthday ["Bob"] w0
     = (Raise (AttributeError "'NoneType' object has no attribute 'birthday'"), w0).
Proof.
  apply (show_commands_absent_name w0 "Bob"). reflexivity.
Defined.

(** C4: with too few arguments only [add-birthday], which indexes [args],
    raises [IndexError] and returns "Enter correct information."; [add],
    [change], [phone] and [show-birthday] unpack [args], which raises a
    [ValueError], and return that exception as they do for an invalid
    phone.  The world stays as it is. *)
Theorem too_few_arguments (args : list string) (w : world) :
  ((List.length args < 2)%nat ->
   (exists msg, add_contact args w = (Ok (PyExn (ValueError msg)), w))
   /\ add_birthday args w = (Ok (PyText "Enter correct information."), w))
  /\ ((List.length args < 3)%nat ->
      exists msg, change_contact args w = (Ok (PyExn (ValueError msg)), w))
  /\ ((List.length args < 1)%nat ->
      (exists msg, show_phone args w = (Ok (PyExn (ValueError msg)), w))
      /\ (exists msg, show_birthday args w = (Ok (PyExn (ValueError msg)), w))).
Proof.
  split; [|split]; intros Hlen.
  - destruct args as [|a [|b rest]]; simpl in Hlen; try lia;
      (split; [eexists|]; reflexivity).
  - destruct args as [|a [|b [|c rest]]]; simpl in Hlen; try lia;
      eexists; reflexivity.
  - destruct args as [|a rest]; simpl in Hlen; try lia.
    split; eexists; reflexivity.
Qed.

(** The witness: [change] with the name alone. *)
Lemma too_few_arguments_witness :
  exists msg, change_contact ["Alice"] w0 = (Ok (PyExn (ValueError msg)), w0).
Proof.
  apply (proj1 (proj2 (too_few_arguments ["Alice"] w0))). simpl. lia.
Defined.

(** The text of that [ValueError], and the same class for an invalid new
    number. *)
Example change_contact_one_argument :
  change_contact ["Alice"] (mkWorld alice_book [])
  = (Ok (PyExn (ValueError "not enough values to unpack (expected at least 3, got 1)")),
     mkWorld alice_book [])
  /\ change_contact ["Alice"; "1234567890"; "12"] (mkWorld alice_book [])
     = (Ok (PyExn (ValueError "Invalid phone format")), mkWorld alice_book []).
Proof. split; reflexivity. Qed.

(** ** Validation errors and the state *)

Lemma world_eta (w : world) : mkWorld (book w) (shown w) = w.
Proof. destruct w; reflexivity. Qed.

Lemma raises_clean_add_phone phone_number : raises_clean (Record_add_phone phone_number).
Proof.
  intros r e r'. unfold Record_add_phone, bind, lift, get_state, set_phones.
  destruct (Phone_init phone_number); simpl; congruence.
Qed.

Lemma raises_clean_add_birthday value : raises_clean (Record_add_birthday value).
Proof.
  intros r e r'. unfold Record_add_birthday, bind, lift, set_birthday.
  destruct (Birthday_init value); simpl; congruence.
Qed.

Lemma edit_phone_loop_raise old_number new_number (ps ps' : list Phone) (e : exn) :
  edit_phone_loop old_number new_number ps = (Raise e, ps') -> ps' = ps.
Proof.
  revert ps'. induction ps as [|p ps IH]; simpl; intros ps'.
  - congruence.
  - destruct (String.eqb (Phone_str p) old_number).
    + destruct (Phone_set_value_cases new_number p) as [[_ ->] | [_ ->]]; congruence.
    + destruct (edit_phone_loop old_number new_number ps) as [[[] | e'] rest] eqn:Hloop;
        intros [= <- <-]. f_equal. eapply IH. reflexivity.
Qed.

Lemma raises_clean_edit_phone old_number new_number :
  raises_clean (Record_edit_phone old_number new_number).
Proof.
  intros r e r'. unfold Record_edit_phone.
  destruct (edit_phone_loop old_number new_number (phones r)) as [res ps] eqn:Hloop.
  intros [= -> <-]. apply edit_phone_loop_raise in Hloop. subst ps.
  apply record_eta.
Qed.

Lemma call_on_record_raise {A} key (method : St record A) (w w' : world) (e : exn) :
  raises_clean method ->
  call_on_record key method w = (Raise e, w') -> w' = w.
Proof.
  intros Hclean. unfold call_on_record.
  destruct (PyDict.get (book w) key) as [r|] eqn:Hget; [|congruence].
  destruct (method r) as [res r'] eqn:Hm. intros [= -> <-].
  apply Hclean in Hm. subst r'. rewrite set_get_id by assumption.
  apply world_eta.
Qed.

(** [change] and [add-birthday] validate before they assign, and [add] for
    a name already in the book has nothing but the phone to add: when such
    a command returns a [ValueError], the world is as before the call. *)
Lemma value_error_keeps_world (args : list string) (w w' : world) (e : exn) :
  (change_contact args w = (Ok (PyExn e), w') -> w' = w)
  /\ (add_birthday args w = (Ok (PyExn e), w') -> w' = w)
  /\ (show_phone args w = (Ok (PyExn e), w') -> w' = w)
  /\ (show_birthday args w = (Ok (PyExn e), w') -> w' = w)
  /\ (PyDict.mem (book w) (hd "" args) = true ->
      add_contact args w = (Ok (PyExn e), w') -> w' = w).
Proof.
  repeat split.
  - destruct args as [|name [|old_phone [|new_phone rest]]]; try (intros [= _ <-]; reflexivity).
    run_cmd. destruct (PyDict.get (book w) name) as [r|] eqn:Hget; [|discriminate].
    destruct (call_on_record name (Record_edit_phone old_phone new_phone) w)
      as [[[] | e'] w1] eqn:Hcall; [discriminate|].
    apply call_on_record_raise in Hcall; [|apply raises_clean_edit_phone].
    destruct e'; congruence.
  - destruct args as [|name [|value rest]]; try discriminate.
    run_cmd. destruct (PyDict.get (book w) name) as [r|] eqn:Hget; [|discriminate].
    destruct (call_on_record name (Record_add_birthday value) w)
      as [[[] | e'] w1] eqn:Hcall; [discriminate|].
    apply call_on_record_raise in Hcall; [|apply raises_clean_add_birthday].
    destruct e'; congruence.
  - destruct args as [|name [|x rest]]; try (intros [= _ <-]; reflexivity).
    run_cmd. destruct (PyDict.get (book w) name); discriminate.
  - destruct args as [|name [|x rest]]; try (intros [= _ <-]; reflexivity).
    run_cmd. destruct (PyDict.get (book w) name); discriminate.
  - destruct args as [|name [|phone rest]]; try (intros _ [= _ <-]; reflexivity).
    simpl. unfold PyDict.mem. run_cmd.
    destruct (PyDict.get (book w) name) as [r|] eqn:Hget; [intros _ | discriminate].
    destruct (negb (phone =? "")%string); [|discriminate].
    destruct (call_on_record name (Record_add_phone phone) w)
      as [[[] | e'] w1] eqn:Hcall; [discriminate|].
    apply call_on_record_raise in Hcall; [|apply raises_clean_add_phone].
    destruct e'; congruence.
Qed.

(** C3: [add] stores the new record before it validates the phone.  For a
    name not in the book and a phone that is neither empty nor valid, the
    command returns the [ValueError] "Invalid phone format", and the book
    has gained an entry for the name, a record without phones. *)
Theorem add_contact_invalid_phone_new_name
        (name phone : string) (rest : list string) (w : world) :
  AddressBook_find (book w) name = None ->
  phone <> "" ->
  phone_ok phone = false ->
  add_contact (name :: phone :: rest) w
  = (Ok (PyExn (ValueError "Invalid phone format")),
     mkWorld (AddressBook_add_record (book w) (Record_init name)) (shown w))
  /\ AddressBook_find (book (snd (add_contact (name :: phone :: rest) w))) name
     = Some (Record_init name)
  /\ book (snd (add_contact (name :: phone :: rest) w)) <> book w.
Proof.
  intros Hfind Hne Hbad. unfold AddressBook_find in Hfind.
  assert (Hrun : add_contact (name :: phone :: rest) w
                 = (Ok (PyExn (ValueError "Invalid phone format")),
                    mkWorld (AddressBook_add_record (book w) (Record_init name))
                            (shown w))).
  { run_cmd. rewrite Hfind. simpl.
    destruct (String.eqb_spec phone "") as [-> | _]; [congruence|]. simpl.
    unfold call_on_record, AddressBook_add_record. simpl.
    rewrite get_set_same. unfold Record_add_phone, bind, lift, Phone_init.
    rewrite Hbad. simpl.
    rewrite set_get_id by apply get_set_same. reflexivity. }
  rewrite Hrun. simpl. unfold AddressBook_find, AddressBook_add_record. simpl.
  repeat split.
  - apply get_set_same.
  - intros Heq. rewrite <- Heq, get_set_same in Hfind. discriminate.
Qed.

(** The witness: [add Alice 123] on the empty book. *)
Lemma add_contact_invalid_phone_new_name_witness :
  add_contact ["Alice"; "123"] w0
  = (Ok (PyExn (ValueError "Invalid phone format")),
     mkWorld [("Alice", Record_init "Alice")] []).
Proof.
  apply (add_contact_invalid_phone_new_name "Alice" "123" [] w0).
  - reflexivity.
  - discriminate.
  - reflexivity.
Defined.

(** ** Dates *)

Lemma new_ok_inv (y m d : Z) (x : Date.date) :
  Date.new y m d = Ok x -> x = Date.mkDate y m d.
Proof.
  unfold Date.new.
  repeat match goal with |- context [if ?c then _ else _] => destruct c end;
    congruence.
Qed.

Lemma new_raise_inv (y m d : Z) (e : exn) :
  Date.new y m d = Raise e -> exists msg, e = ValueError msg.
Proof.
  unfold Date.new.
  repeat match goal with |- context [if ?c then _ else _] => destruct c end;
    intros [= <-]; eexists; reflexivity.
Qed.

Lemma is_date_new (y m d : Z) :
  is_date (Date.mkDate y m d) = true -> Date.new y m d = Ok (Date.mkDate y m d).
Proof.
  unfold is_date. simpl. destruct (Date.new y m d) as [x|e] eqn:Hnew; [|discriminate].
  intros _. f_equal. now apply new_ok_inv.
Qed.

Lemma not_date_new (y m d : Z) :
  is_date (Date.mkDate y m d) = false ->
  exists msg, Date.new y m d = Raise (ValueError msg).
Proof.
  unfold is_date. simpl. destruct (Date.new y m d) as [x|e] eqn:Hnew; [discriminate|].
  intros _. destruct (new_raise_inv _ _ _ _ Hnew) as [msg ->]. now exists msg.
Qed.

(** No year without the leap day has a 29th of February. *)
Lemma feb29_needs_leap (y : Z) :
  Date.is_leap y = false -> is_date (Date.mkDate y 2 29) = false.
Proof.
  intros Hleap. unfold is_date, Date.new. simpl.
  destruct (negb _); [reflexivity|]. simpl. now rewrite Hleap.
Qed.

(** A day that exists in some year exists in every year, the 29th of
    February apart. *)
Lemma is_date_other_year (y y' m d : Z) :
  is_date (Date.mkDate y m d) = true ->
  ~ (m = 2 /\ d = 29) ->
  Date.MINYEAR <= y' <= Date.MAXYEAR ->
  is_date (Date.mkDate y' m d) = true.
Proof.
  unfold is_date, Date.new, Date.MINYEAR, Date.MAXYEAR. simpl.
  intros Hd Hnot Hy'.
  destruct (negb ((1 <=? y) && (y <=? 9999))); [discriminate|].
  replace ((1 <=? y') && (y' <=? 9999)) with true
    by (symmetry; apply andb_true_iff; split; apply Z.leb_le; lia).
  simpl. destruct (negb ((1 <=? m) && (m <=? 12))); [discriminate|].
  destruct ((1 <=? d) && (d <=? Date.days_in_month y m)) eqn:Hday; [|discriminate].
  apply andb_true_iff in Hday as [H1 H2]. apply Z.leb_le in H1, H2.
  replace ((1 <=? d) && (d <=? Date.days_in_month y' m)) with true; [reflexivity|].
  symmetry. apply andb_true_iff. split; apply Z.leb_le; [assumption|].
  unfold Date.days_in_month in *.
  destruct m as [|[[[[|[]|]|[]|]|[[]|[]|]|]|[[[]|[]|]|[[]|[]|]|]|]|]; try lia.
  destruct (Date.is_leap y), (Date.is_leap y'); lia.
Qed.

(** ** get_upcoming_birthdays *)

Lemma upcoming_step_ok (today : Date.date) (days : Z) (r : record) :
  reanchors today r = true ->
  upcoming_step today days r = Ok (upcoming_of today days r).
Proof.
  unfold reanchors, upcoming_step, upcoming_of.
  destruct (birthday r) as [b|]; [|reflexivity].
  intros H. apply andb_true_iff in H as [Hthis Hocc].
  unfold Date.replace_year. rewrite (is_date_new _ _ _ Hthis). simpl.
  unfold occurrence in *.
  destruct (Date.lt _ today).
  - unfold Date.replace_year. simpl. rewrite (is_date_new _ _ _ Hocc). simpl.
    unfold in_window. now destruct (_ && _).
  - simpl. unfold in_window. now destruct (_ && _).
Qed.

Lemma upcoming_step_raise (today : Date.date) (days : Z) (r : record) :
  reanchors today r = false ->
  exists msg, upcoming_step today days r = Raise (ValueError msg).
Proof.
  unfold reanchors, upcoming_step.
  destruct (birthday r) as [b|]; [|discriminate].
  intros H. unfold Date.replace_year.
  destruct (is_date (Date.mkDate (Date.year today) (Date.month (birthday_date b))
                                 (Date.day (birthday_date b)))) eqn:Hthis.
  - simpl in H. rewrite (is_date_new _ _ _ Hthis). simpl.
    unfold occurrence in H.
    destruct (Date.lt _ today); [|congruence].
    unfold Date.replace_year. simpl.
    destruct (not_date_new _ _ _ H) as [msg ->]. now exists msg.
  - destruct (not_date_new _ _ _ Hthis) as [msg ->]. now exists msg.
Qed.

Lemma upcoming_loop_ok (today : Date.date) (days : Z) (users : list record) :
  forallb (reanchors today) users = true ->
  forall acc,
    upcoming_loop today days users acc
    = Ok (acc ++ flat_map (fun r => match upcoming_of today days r with
                                    | Some c => [c]
                                    | None => []
                                    end) users)%list.
Proof.
  induction users as [|user rest IH]; simpl; intros Hall acc.
  - now rewrite app_nil_r.
  - apply andb_true_iff in Hall as [Huser Hrest].
    rewrite (upcoming_step_ok _ _ _ Huser). simpl. rewrite (IH Hrest).
    destruct (upcoming_of today days user); [|reflexivity].
    now rewrite <- app_assoc.
Qed.

Lemma upcoming_loop_raise (today : Date.date) (days : Z) (users : list record) :
  forallb (reanchors today) users = false ->
  forall acc, exists msg,
    upcoming_loop today days users acc = Raise (ValueError msg).
Proof.
  induction users as [|user rest IH]; simpl; [discriminate|]. intros Hsome acc.
  destruct (reanchors today user) eqn:Huser.
  - rewrite (upcoming_step_ok _ _ _ Huser). simpl. now apply IH.
  - destruct (upcoming_step_raise today days user Huser) as [msg ->].
    now exists msg.
Qed.

(** The function returns exactly when every birthday of the book can be put
    on the current year (and on the next one where it has passed), and it
    then returns the list of the specification: the records with a birthday
    whose occurrence is at most [days] days ahead, today included, each with
    its name and the occurrence in the text [strftime("%Y.%m.%d")] gives it,
    in the order of the book. *)
Lemma get_upcoming_birthdays_refines (today : Date.date) (b : AddressBook) (days : Z) :
  (forallb (reanchors today) (PyDict.values b) = true ->
   AddressBook_get_upcoming_birthdays today b days = Ok (upcoming_spec today days b))
  /\ (forallb (reanchors today) (PyDict.values b) = false ->
      exists msg,
        AddressBook_get_upcoming_birthdays today b days = Raise (ValueError msg)).
Proof.
  unfold AddressBook_get_upcoming_birthdays, upcoming_spec. split; intros H.
  - now rewrite upcoming_loop_ok.
  - now apply upcoming_loop_raise.
Qed.

(** Birthdays other than the 29th of February re-anchor in every year up to
    9998. *)
Lemma reanchors_plain (today : Date.date) (r : record) :
  Date.MINYEAR <= Date.year today < Date.MAXYEAR ->
  (forall b, birthday r = Some b ->
             is_date (birthday_date b) = true
             /\ ~ (Date.month (birthday_date b) = 2 /\ Date.day (birthday_date b) = 29)) ->
  reanchors today r = true.
Proof.
  intros Hy Hb. unfold reanchors. destruct (birthday r) as [b|]; [|reflexivity].
  destruct (Hb b eq_refl) as [Hdate Hnot]. destruct (birthday_date b) as [y m d].
  simpl in *. apply andb_true_iff. split.
  - apply (is_date_other_year y); auto. lia.
  - unfold occurrence. simpl. destruct (Date.lt _ today);
      apply (is_date_other_year y); auto; unfold Date.MINYEAR, Date.MAXYEAR in *; lia.
Qed.

(** The window of seven days on 25 February 2023: a birthday today and one
    seven days ahead are listed, one eight days ahead is not, and the list
    follows the order of the book. *)
Example upcoming_window_bounds :
  let on (n : string) (d : Date.date) := (n, mkRecord n [] (Some (mkBirthday "" d))) in
  AddressBook_get_upcoming_birthdays today_2023_02_25
    [ on "Eight" (Date.mkDate 1991 3 5); on "Seven" (Date.mkDate 2030 3 4);
      on "None" (Date.mkDate 1980 2 24); on "Today" (Date.mkDate 2000 2 25);
      ("Unset", Record_init "Unset") ] 7
  = Ok [ mkCongratulation "Seven" "2023.03.04"; mkCongratulation "Today" "2023.02.25" ].
Proof. vm_compute. reflexivity. Qed.

Lemma In_forallb_false {A} (f : A -> bool) (l : list A) (x : A) :
  In x l -> f x = false -> forallb f l = false.
Proof.
  intros Hin Hf. apply forallb_false_iff. now exists x.
Qed.

(** C2: in a year without the leap day, [get_upcoming_birthdays] raises a
    [ValueError] for every book that holds a birthday on the 29th of
    February: [replace(year=today.year)] has no such day to return. *)
Theorem get_upcoming_birthdays_feb29_raises
        (today : Date.date) (b : AddressBook) (days : Z) (r : record) :
  Date.is_leap (Date.year today) = false ->
  In r (PyDict.values b) ->
  feb29 r ->
  exists msg, AddressBook_get_upcoming_birthdays today b days = Raise (ValueError msg).
Proof.
  intros Hleap Hin (bd & Hb & Hm & Hd).
  apply get_upcoming_birthdays_refines.
  apply (In_forallb_false _ _ r Hin).
  unfold reanchors. rewrite Hb, Hm, Hd.
  now rewrite (feb29_needs_leap _ Hleap).
Qed.

(** The witness: Bob, born on 29.02.2020, and the 25th of February 2023. *)
Lemma get_upcoming_birthdays_feb29_raises_witness :
  add_birthday ["Bob"; "29.02.2020"] (snd (add_contact ["Bob"; "0987654321"] w0))
  = (Ok PyNone, w_bob)
  /\ exists msg,
      AddressBook_get_upcoming_birthdays today_2023_02_25 (book w_bob) 7
      = Raise (ValueError msg).
Proof.
  split; [reflexivity|].
  apply (get_upcoming_birthdays_feb29_raises today_2023_02_25 (book w_bob) 7
           (mkRecord "Bob" [mkPhone "0987654321"]
                     (Some (mkBirthday "29.02.2020" (Date.mkDate 2020 2 29))))).
  - reflexivity.
  - left. reflexivity.
  - eexists. repeat split.
Defined.

(** After the 29th of February of a leap year the second [replace], onto
    the next year, raises in the same way. *)
Example get_upcoming_birthdays_feb29_after_leap_day :
  AddressBook_get_upcoming_birthdays (Date.mkDate 2024 2 25) (book w_bob) 7
  = Ok [mkCongratulation "Bob" "2024.02.29"]
  /\ fails (AddressBook_get_upcoming_birthdays (Date.mkDate 2024 3 1) (book w_bob) 7).
Proof.
  split; [vm_compute; reflexivity | eexists; vm_compute; reflexivity].
Qed.

(** C1: on 25 February 2023 Alice's birthday of 28 February is three days
    ahead and listed for the book that holds her alone; once the book also
    holds Bob, born on a 29th of February, the call raises and lists
    nobody. *)
Theorem get_upcoming_birthdays_lost_to_feb29 :
  AddressBook_get_upcoming_birthdays today_2023_02_25 (book w_alice) 7
  = Ok [mkCongratulation "Alice" "2023.02.28"]
  /\ fails (AddressBook_get_upcoming_birthdays today_2023_02_25 (book w_alice_bob) 7).
Proof.
  split.
  - vm_compute. reflexivity.
  - eexists. vm_compute. reflexivity.
Qed.

(** * Further properties of the code *)

(** ** Record.remove_phone *)

Lemma filter_id_when_all {A} (f : A -> bool) (l : list A) :
  (forall x, In x l -> f x = true) -> filter f l = l.
Proof.
  induction l as [|a l IH]; simpl; intros H; [reflexivity|].
  rewrite (H a) by now left. f_equal. apply IH. intros x Hx. apply H. now right.
Qed.

Lemma filter_twice {A} (f : A -> bool) (l : list A) :
  filter f (filter f l) = filter f l.
Proof.
  apply filter_id_when_all. intros x Hx. now apply filter_In in Hx.
Qed.

Lemma map_filter_str (phone_number : string) (ps : list Phone) :
  map Phone_str (filter (fun p => negb (String.eqb (Phone_str p) phone_number)) ps)
  = filter (fun s => negb (String.eqb s phone_number)) (map Phone_str ps).
Proof.
  induction ps as [|p ps IH]; simpl; [reflexivity|].
  destruct (negb (Phone_str p =? phone_number)%string); simpl; now rewrite IH.
Qed.

(** X1: [remove_phone] never raises and touches nothing but the list of
    phones: it drops every phone that renders as the given text, all the
    copies of it, and keeps the others in their order; a text that no phone
    renders leaves the record as it is; a second call changes nothing
    more. *)
Theorem Record_remove_phone_spec (self : record) (phone_number : string) :
  exists self',
    Record_remove_phone phone_number self = (Ok tt, self')
    /\ name self' = name self
    /\ birthday self' = birthday self
    /\ map Phone_str (phones self')
       = filter (fun s => negb (String.eqb s phone_number)) (map Phone_str (phones self))
    /\ ~ renders self' phone_number
    /\ (forall s, s <> phone_number -> (renders self' s <-> renders self s))
    /\ (~ renders self phone_number -> self' = self)
    /\ Record_remove_phone phone_number self' = (Ok tt, self').
Proof.
  eexists. split; [reflexivity|]. simpl. unfold renders. simpl.
  rewrite map_filter_str.
  repeat split.
  - intros H. apply filter_In in H as [_ Hneq]. now rewrite String.eqb_refl in Hneq.
  - intros Hin. now apply filter_In in Hin.
  - intros Hin. apply filter_In. split; [assumption|].
    destruct (String.eqb_spec s phone_number); [contradiction | reflexivity].
  - intros Hnot. rewrite filter_id_when_all; [apply record_eta|].
    intros p Hp. destruct (String.eqb_spec (Phone_str p) phone_number) as [Heq|]; [|reflexivity].
    exfalso. apply Hnot. rewrite <- Heq. now apply in_map.
  - unfold Record_remove_phone, bind, get_state, set_phones. simpl.
    now rewrite filter_twice.
Qed.

(** The witness: removing a number Alice does not have. *)
Lemma Record_remove_phone_spec_witness :
  Record_remove_phone "5555555555" twice = (Ok tt, twice).
Proof.
  destruct (Record_remove_phone_spec twice "5555555555")
    as (self' & Hrun & _ & _ & _ & _ & _ & Hsame & _).
  rewrite Hrun. f_equal. apply Hsame.
  unfold renders. simpl. intros [H | [H | []]]; discriminate H.
Defined.

(** ** Record.edit_phone, there and back *)

Lemma Phone_eta (p : Phone) : mkPhone (Phone_str p) = p.
Proof. destruct p; reflexivity. Qed.

Lemma edit_phone_loop_replaces (old_number new_number : string) (l1 l2 : list Phone) (p : Phone) :
  ~ In old_number (map Phone_str l1) ->
  Phone_str p = old_number ->
  phone_ok new_number = true ->
  edit_phone_loop old_number new_number (l1 ++ p :: l2)%list
  = (Ok tt, (l1 ++ mkPhone new_number :: l2)%list).
Proof.
  intros Hnot Hp Hok. rewrite edit_phone_loop_found by assumption.
  unfold Phone_set_value. now rewrite Hok.
Qed.

(** X2: changing a number and changing it back restores the record: when
    the record has [a], does not have [b], and both texts are valid phones,
    [edit_phone(a, b)] followed by [edit_phone(b, a)] succeeds twice and
    ends in the record it started from. *)
Theorem Record_edit_phone_round_trip (self : record) (a b : string) :
  renders self a ->
  ~ renders self b ->
  phone_ok a = true ->
  phone_ok b = true ->
  exists mid,
    Record_edit_phone a b self = (Ok tt, mid)
    /\ renders mid b
    /\ Record_edit_phone b a mid = (Ok tt, self).
Proof.
  unfold renders. intros Ha Hb Hoka Hokb.
  destruct (first_match_split _ _ Ha) as (l1 & p & l2 & Hps & Hnot & Hp).
  assert (Hb1 : ~ In b (map Phone_str l1)).
  { intros H. apply Hb. rewrite Hps, map_app. apply in_or_app. now left. }
  exists (mkRecord (name self) (l1 ++ mkPhone b :: l2)%list (birthday self)).
  unfold Record_edit_phone. simpl. repeat split.
  - now rewrite Hps, edit_phone_loop_replaces.
  - rewrite map_app. apply in_or_app. right. now left.
  - rewrite edit_phone_loop_replaces by auto.
    rewrite <- Hp, Phone_eta, <- Hps. now rewrite record_eta.
Qed.

(** The witness: Alice's first number changed and changed back. *)
Lemma Record_edit_phone_round_trip_witness :
  exists mid,
    Record_edit_phone "1111111111" "2222222222" twice = (Ok tt, mid)
    /\ renders mid "2222222222"
    /\ Record_edit_phone "2222222222" "1111111111" mid = (Ok tt, twice).
Proof.
  apply (Record_edit_phone_round_trip twice "1111111111" "2222222222").
  - left. reflexivity.
  - unfold renders. simpl. intros [H | [H | []]]; discriminate H.
  - reflexivity.
  - reflexivity.
Defined.

(** ** AddressBook.add_record, find and delete together *)

Section DictLaws.
Context {V : Type}.
Implicit Types (d : PyDict.t V) (k : string) (v : V).

Lemma get_del_same d k : PyDict.wf d -> PyDict.get (PyDict.del d k) k = None.
Proof.
  unfold PyDict.wf. induction d as [|[k' v'] d IH]; simpl; [reflexivity|].
  intros Hwf. inversion Hwf as [|? ? Hnot Hrest]; subst.
  destruct (String.eqb_spec k' k) as [-> | Hne].
  - now apply get_None_iff.
  - simpl. destruct (String.eqb_spec k' k); [contradiction | auto].
Qed.

Lemma get_del_other d k k' :
  k' <> k -> PyDict.get (PyDict.del d k) k' = PyDict.get d k'.
Proof.
  intros Hne. induction d as [|[k0 v0] d IH]; simpl; [reflexivity|].
  destruct (String.eqb_spec k0 k) as [-> | H0]; simpl.
  - destruct (String.eqb_spec k k'); [congruence | reflexivity].
  - now rewrite IH.
Qed.

Lemma set_absent d k v :
  PyDict.get d k = None -> PyDict.set d k v = (d ++ [(k, v)])%list.
Proof.
  induction d as [|[k' v'] d IH]; simpl; [reflexivity|].
  destruct (String.eqb_spec k' k); [discriminate|]. intros H. now rewrite IH.
Qed.

Lemma del_absent d k : PyDict.get d k = None -> PyDict.del d k = d.
Proof.
  induction d as [|[k' v'] d IH]; simpl; [reflexivity|].
  destruct (String.eqb_spec k' k); [discriminate|]. intros H. now rewrite IH.
Qed.

Lemma del_set_absent d k v :
  PyDict.get d k = None -> PyDict.del (PyDict.set d k v) k = d.
Proof.
  induction d as [|[k' v'] d IH]; simpl.
  - now rewrite String.eqb_refl.
  - destruct (String.eqb_spec k' k) as [|Hne]; [discriminate|]. intros H. simpl.
    destruct (String.eqb_spec k' k); [contradiction|]. now rewrite IH.
Qed.

Lemma set_set d k v v' : PyDict.set (PyDict.set d k v) k v' = PyDict.set d k v'.
Proof.
  induction d as [|[k0 v0] d IH]; simpl.
  - now rewrite String.eqb_refl.
  - destruct (String.eqb_spec k0 k) as [-> | Hne]; simpl.
    + now rewrite String.eqb_refl.
    + destruct (String.eqb_spec k0 k); [contradiction|]. now rewrite IH.
Qed.

End DictLaws.

(** X3: [delete] removes the entry of the name and no other: afterwards
    the name is not found, every other name is found as before, and a name
    that was not in the book leaves the book as it is; deleting a record
    just added under a new name gives back the book as it was. *)
Theorem AddressBook_delete_spec (b : AddressBook) (n : string) :
  (PyDict.wf b -> AddressBook_find (AddressBook_delete b n) n = None)
  /\ (forall n', n' <> n ->
        AddressBook_find (AddressBook_delete b n) n' = AddressBook_find b n')
  /\ (AddressBook_find b n = None -> AddressBook_delete b n = b)
  /\ (forall r, name r = n -> AddressBook_find b n = None ->
        AddressBook_delete (AddressBook_add_record b r) n = b).
Proof.
  unfold AddressBook_find, AddressBook_delete, AddressBook_add_record, PyDict.mem.
  repeat split.
  - intros Hwf. destruct (PyDict.get b n) eqn:Hget; [now apply get_del_same | exact Hget].
  - intros n' Hne. destruct (PyDict.get b n); [now apply get_del_other | reflexivity].
  - now intros ->.
  - intros r <- Hnone. rewrite get_set_same. now apply del_set_absent.
Qed.

(** The witness: Alice deleted from the book that holds her alone. *)
Lemma AddressBook_delete_spec_witness :
  AddressBook_find (AddressBook_delete alice_book "Alice") "Alice" = None.
Proof.
  apply (proj1 (AddressBook_delete_spec alice_book "Alice")).
  unfold PyDict.wf. simpl. constructor; [intros [] | constructor].
Defined.

(** X4: [add_record] changes the entry of the record's name and no other:
    every other name is found as before; a new name goes to the end of the
    book; a name already there keeps its place and the number of entries;
    and of two records added under one name the later one stays, at the
    place of the first. *)
Theorem AddressBook_add_record_frame (b : AddressBook) (r : record) :
  (forall n, n <> name r ->
     AddressBook_find (AddressBook_add_record b r) n = AddressBook_find b n)
  /\ (AddressBook_find b (name r) = None ->
      AddressBook_add_record b r = (b ++ [(name r, r)])%list)
  /\ (AddressBook_find b (name r) <> None ->
      PyDict.keys (AddressBook_add_record b r) = PyDict.keys b
      /\ List.length (AddressBook_add_record b r) = List.length b)
  /\ (forall r', name r' = name r ->
        AddressBook_add_record (AddressBook_add_record b r) r'
        = AddressBook_add_record b r').
Proof.
  unfold AddressBook_find, AddressBook_add_record. repeat split.
  - intros n Hne. now apply get_set_other.
  - now apply set_absent.
  - rewrite keys_set. unfold PyDict.mem.
    destruct (PyDict.get b (name r)); [reflexivity | contradiction].
  - rewrite <- (length_map fst), <- (length_map fst b).
    change (List.length (PyDict.keys (PyDict.set b (name r) r))
            = List.length (PyDict.keys b)).
    rewrite keys_set. unfold PyDict.mem.
    destruct (PyDict.get b (name r)); [reflexivity | contradiction].
  - intros r' ->. apply set_set.
Qed.

(** The witness: Bob added to the book that holds Alice. *)
Lemma AddressBook_add_record_frame_witness :
  AddressBook_add_record alice_book (Record_init "Bob")
  = (alice_book ++ [("Bob", Record_init "Bob")])%list.
Proof.
  apply (proj1 (proj2 (AddressBook_add_record_frame alice_book (Record_init "Bob")))).
  reflexivity.
Defined.

(** ** Birthday: what the constructor accepts *)

Lemma one_inv (p : ascii -> bool) (s t r : list ascii) :
  In (t, r) (Strptime.one p s) -> exists c, t = [c] /\ s = c :: r /\ p c = true.
Proof.
  unfold Strptime.one. destruct s as [|c s]; [intros []|].
  destruct (p c) eqn:Hp; [|intros []].
  intros [[= <- <-] | []]. now exists c.
Qed.

Lemma cuts_one (p : ascii -> bool) : cuts (Strptime.one p) [1%nat].
Proof.
  intros s t r H. apply one_inv in H as (c & -> & -> & _). split; [reflexivity | now left].
Qed.

Lemma seq2_inv (a b : Strptime.matcher) (s t r : list ascii) :
  In (t, r) (Strptime.seq2 a b s) ->
  exists t1 r1 t2, In (t1, r1) (a s) /\ In (t2, r) (b r1) /\ t = (t1 ++ t2)%list.
Proof.
  unfold Strptime.seq2. intros H.
  apply in_flat_map in H as [[t1 r1] [Ha H]].
  apply in_map_iff in H as [[t2 r2] [[= <- <-] Hb]].
  now exists t1, r1, t2.
Qed.

Lemma cuts_seq2 (a b : Strptime.matcher) (n k : nat) :
  cuts a [n] -> cuts b [k] -> cuts (Strptime.seq2 a b) [(n + k)%nat].
Proof.
  intros Ha Hb s t r H. apply seq2_inv in H as (t1 & r1 & t2 & H1 & H2 & ->).
  destruct (Ha _ _ _ H1) as [-> [Hn | []]]. destruct (Hb _ _ _ H2) as [-> [Hk | []]].
  split; [now rewrite <- app_assoc | left; rewrite length_app; congruence].
Qed.

Lemma cuts_alt (ms : list Strptime.matcher) (lens : list nat) :
  Forall (fun m => exists n, In n lens /\ cuts m [n]) ms -> cuts (Strptime.alt ms) lens.
Proof.
  intros Hall s t r H. unfold Strptime.alt in H.
  apply in_flat_map in H as [m [Hm H]].
  rewrite Forall_forall in Hall. destruct (Hall m Hm) as (n & Hn & Hcut).
  destruct (Hcut _ _ _ H) as [-> [Hlen | []]]. split; [reflexivity | congruence].
Qed.

Lemma cuts_re_d : cuts Strptime.re_d [1%nat; 2%nat].
Proof.
  apply cuts_alt. repeat constructor;
    solve [ exists 2%nat; split; [simpl; auto | apply (cuts_seq2 _ _ 1 1); apply cuts_one]
          | exists 1%nat; split; [simpl; auto | apply cuts_one] ].
Qed.

Lemma cuts_re_m : cuts Strptime.re_m [1%nat; 2%nat].
Proof.
  apply cuts_alt. repeat constructor;
    solve [ exists 2%nat; split; [simpl; auto | apply (cuts_seq2 _ _ 1 1); apply cuts_one]
          | exists 1%nat; split; [simpl; auto | apply cuts_one] ].
Qed.

Lemma cuts_re_Y : cuts Strptime.re_Y [4%nat].
Proof.
  unfold Strptime.re_Y.
  apply (cuts_seq2 _ _ 1 3); [apply cuts_one|].
  apply (cuts_seq2 _ _ 1 2); [apply cuts_one|].
  apply (cuts_seq2 _ _ 1 1); apply cuts_one.
Qed.

Lemma re_dot_inv (s t r : list ascii) :
  In (t, r) (Strptime.re_dot s) -> s = "."%char :: r.
Proof.
  intros H. apply one_inv in H as (c & -> & -> & Hc).
  unfold Strptime.lit, PyStr.ord in Hc. apply N.eqb_eq in Hc.
  f_equal. rewrite <- (ascii_N_embedding c), Hc. reflexivity.
Qed.

Lemma matches_inv (s d m y r : list ascii) :
  In (d, m, y, r) (Strptime.matches s) ->
  s = (d ++ "."%char :: m ++ "."%char :: y ++ r)%list
  /\ In (List.length d) [1%nat; 2%nat]
  /\ In (List.length m) [1%nat; 2%nat]
  /\ List.length y = 4%nat.
Proof.
  unfold Strptime.matches. intros H.
  apply in_flat_map in H as [[d' r1] [Hd H]].
  apply in_flat_map in H as [[x1 r2] [Hdot1 H]].
  apply in_flat_map in H as [[m' r3] [Hm H]].
  apply in_flat_map in H as [[x2 r4] [Hdot2 H]].
  apply in_map_iff in H as [[y' r5] [[= <- <- <- <-] Hy]].
  destruct (cuts_re_d _ _ _ Hd) as [-> Hld].
  destruct (cuts_re_m _ _ _ Hm) as [-> Hlm].
  destruct (cuts_re_Y _ _ _ Hy) as [-> [Hly | []]].
  apply re_dot_inv in Hdot1, Hdot2. subst. auto.
Qed.

Lemma strptime_date_inv (s : string) (dt : Date.date) :
  Strptime.strptime_date s = Some dt ->
  exists d m y,
    PyStr.chars s = (d ++ "."%char :: m ++ "."%char :: y)%list
    /\ In (List.length d) [1%nat; 2%nat]
    /\ In (List.length m) [1%nat; 2%nat]
    /\ List.length y = 4%nat
    /\ dt = Date.mkDate (PyStr.to_int y) (PyStr.to_int m) (PyStr.to_int d)
    /\ is_date dt = true.
Proof.
  unfold Strptime.strptime_date.
  destruct (Strptime.matches (PyStr.chars s)) as [|[[[d m] y] [|c r]] rest] eqn:Hm;
    try discriminate.
  destruct (Date.new _ _ _) as [x|e] eqn:Hnew; [|discriminate]. intros [= <-].
  assert (Hin : In (d, m, y, []) (Strptime.matches (PyStr.chars s)))
    by (rewrite Hm; now left).
  apply matches_inv in Hin as (Hs & Hd & Hmm & Hy). rewrite app_nil_r in Hs.
  exists d, m, y. apply new_ok_inv in Hnew as Hx. subst x.
  repeat split; auto. unfold is_date. simpl. now rewrite Hnew.
Qed.

Lemma is_date_bounds (d : Date.date) :
  is_date d = true ->
  1 <= Date.year d <= 9999 /\ 1 <= Date.month d <= 12
  /\ 1 <= Date.day d <= Date.days_in_month (Date.year d) (Date.month d)
  /\ Date.day d <= 31.
Proof.
  unfold is_date, Date.new, Date.MINYEAR, Date.MAXYEAR.
  destruct ((1 <=? Date.year d) && (Date.year d <=? 9999)) eqn:Hy; [|discriminate].
  destruct ((1 <=? Date.month d) && (Date.month d <=? 12)) eqn:Hm; [|discriminate].
  destruct ((1 <=? Date.day d) && (Date.day d <=? _)) eqn:Hd; [|discriminate].
  intros _. simpl in *.
  apply andb_true_iff in Hy as [Hy1 Hy2], Hm as [Hm1 Hm2], Hd as [Hd1 Hd2].
  apply Z.leb_le in Hy1, Hy2, Hm1, Hm2, Hd1, Hd2.
  repeat split; try assumption.
  unfold Date.days_in_month in Hd2.
  destruct (Date.month d) as [|[[[[|[]|]|[]|]|[[]|[]|]|]|[[[]|[]|]|[[]|[]|]|]|]|];
    try destruct (Date.is_leap _); lia.
Qed.



(** ** Birthday: the texts DD.MM.YYYY of the calendar are accepted *)

Lemma chars_app (a b : string) :
  PyStr.chars (a ++ b) = (PyStr.chars a ++ PyStr.chars b)%list.
Proof. induction a as [|c a IH]; simpl; [reflexivity | now rewrite IH]. Qed.

Lemma extends_one (p : ascii -> bool) : extends (Strptime.one p).
Proof.
  intros s t r0 r H. apply one_inv in H as (c & -> & -> & Hp).
  simpl. rewrite Hp. now left.
Qed.

Lemma seq2_intro (a b : Strptime.matcher) (s t1 r1 t2 r : list ascii) :
  In (t1, r1) (a s) -> In (t2, r) (b r1) -> In ((t1 ++ t2)%list, r) (Strptime.seq2 a b s).
Proof.
  intros Ha Hb. unfold Strptime.seq2. apply in_flat_map. exists (t1, r1).
  split; [assumption|]. apply in_map_iff. now exists (t2, r).
Qed.

Lemma extends_seq2 (a b : Strptime.matcher) :
  extends a -> extends b -> extends (Strptime.seq2 a b).
Proof.
  intros Ha Hb s t r0 r H. apply seq2_inv in H as (t1 & r1 & t2 & H1 & H2 & ->).
  eapply seq2_intro; [apply Ha | apply Hb]; eassumption.
Qed.

Lemma extends_alt (ms : list Strptime.matcher) :
  Forall extends ms -> extends (Strptime.alt ms).
Proof.
  intros Hall s t r0 r H. unfold Strptime.alt in *.
  apply in_flat_map in H as [m [Hm H]]. apply in_flat_map. exists m.
  split; [assumption|]. rewrite Forall_forall in Hall. now apply Hall.
Qed.

Lemma extends_re_d : extends Strptime.re_d.
Proof.
  apply extends_alt. repeat constructor;
    first [apply extends_one | apply extends_seq2; apply extends_one].
Qed.

Lemma extends_re_m : extends Strptime.re_m.
Proof.
  apply extends_alt. repeat constructor;
    first [apply extends_one | apply extends_seq2; apply extends_one].
Qed.

Lemma extends_re_Y : extends Strptime.re_Y.
Proof.
  unfold Strptime.re_Y. repeat (apply extends_seq2; [apply extends_one|]).
  apply extends_one.
Qed.

(** A matcher that can take the whole of [cs] takes [cs] off any text that
    starts with it. *)
Lemma takes_all_prefix (mt : Strptime.matcher) (lens : list nat) (cs r : list ascii) :
  cuts mt lens -> extends mt -> takes_all mt cs = true -> In (cs, r) (mt (cs ++ r)%list).
Proof.
  intros Hcut Hext H. unfold takes_all in H.
  apply existsb_exists in H as [[t r0] [Hin Hr0]]. simpl in Hr0.
  destruct r0; [|discriminate].
  destruct (Hcut _ _ _ Hin) as [Hcs _]. rewrite app_nil_r in Hcs. subst t.
  exact (Hext _ _ _ r Hin).
Qed.

Lemma nodot_one (p : ascii -> bool) : p "."%char = false -> nodot (Strptime.one p).
Proof.
  intros Hp s t r H. apply one_inv in H as (c & -> & -> & Hc).
  intros [-> | []]. congruence.
Qed.

Lemma nodot_seq2 (a b : Strptime.matcher) :
  nodot a -> nodot b -> nodot (Strptime.seq2 a b).
Proof.
  intros Ha Hb s t r H. apply seq2_inv in H as (t1 & r1 & t2 & H1 & H2 & ->).
  intros Hin. apply in_app_or in Hin as [Hin | Hin];
    [eapply Ha | eapply Hb]; eassumption.
Qed.

Lemma nodot_alt (ms : list Strptime.matcher) :
  Forall nodot ms -> nodot (Strptime.alt ms).
Proof.
  intros Hall s t r H. unfold Strptime.alt in H.
  apply in_flat_map in H as [m [Hm H]].
  rewrite Forall_forall in Hall. eapply Hall; eassumption.
Qed.

Lemma nodot_re_d : nodot Strptime.re_d.
Proof.
  apply nodot_alt. repeat constructor;
    first [apply nodot_one; reflexivity
          | apply nodot_seq2; apply nodot_one; reflexivity].
Qed.

Lemma nodot_re_m : nodot Strptime.re_m.
Proof.
  apply nodot_alt. repeat constructor;
    first [apply nodot_one; reflexivity
          | apply nodot_seq2; apply nodot_one; reflexivity].
Qed.

(** Two ways of cutting a text at a full stop after a token without one
    are the same way. *)
Lemma first_dot_unique (t t' r r' : list ascii) :
  ~ In "."%char t -> ~ In "."%char t' ->
  (t ++ "."%char :: r)%list = (t' ++ "."%char :: r')%list -> t = t' /\ r = r'.
Proof.
  revert t'. induction t as [|c t IH]; intros [|c' t'] Ht Ht'; simpl; intros Heq.
  - injection Heq as ->. now split.
  - injection Heq as Hc _. exfalso. apply Ht'. left. now symmetry.
  - injection Heq as Hc _. exfalso. apply Ht. now left.
  - injection Heq as -> Heq. destruct (IH t') as [-> ->]; auto.
    + intros H. apply Ht. now right.
    + intros H. apply Ht'. now right.
Qed.

Lemma matches_intro (s d r1 x1 r2 m r3 x2 r4 y r5 : list ascii) :
  In (d, r1) (Strptime.re_d s) -> In (x1, r2) (Strptime.re_dot r1) ->
  In (m, r3) (Strptime.re_m r2) -> In (x2, r4) (Strptime.re_dot r3) ->
  In (y, r5) (Strptime.re_Y r4) ->
  In (d, m, y, r5) (Strptime.matches s).
Proof.
  intros Hd H1 Hm H2 Hy. unfold Strptime.matches.
  apply in_flat_map. exists (d, r1). split; [assumption|].
  apply in_flat_map. exists (x1, r2). split; [assumption|].
  apply in_flat_map. exists (m, r3). split; [assumption|].
  apply in_flat_map. exists (x2, r4). split; [assumption|].
  apply in_map_iff. now exists (y, r5).
Qed.

Lemma matches_nodot (s d m y r : list ascii) :
  In (d, m, y, r) (Strptime.matches s) -> ~ In "."%char d /\ ~ In "."%char m.
Proof.
  unfold Strptime.matches. intros H.
  apply in_flat_map in H as [[d' r1] [Hd H]].
  apply in_flat_map in H as [[x1 r2] [Hdot1 H]].
  apply in_flat_map in H as [[m' r3] [Hm H]].
  apply in_flat_map in H as [[x2 r4] [Hdot2 H]].
  apply in_map_iff in H as [[y' r5] [[= <- <- <- <-] Hy]].
  split; [eapply nodot_re_d | eapply nodot_re_m]; eassumption.
Qed.

(** The expression matches a text in one way at most. *)
Lemma matches_unique (s : list ascii) (a b : list ascii * list ascii * list ascii * list ascii) :
  In a (Strptime.matches s) -> In b (Strptime.matches s) -> a = b.
Proof.
  destruct a as [[[d m] y] r], b as [[[d' m'] y'] r']. intros Ha Hb.
  destruct (matches_nodot _ _ _ _ _ Ha) as [Hd Hm].
  destruct (matches_nodot _ _ _ _ _ Hb) as [Hd' Hm'].
  apply matches_inv in Ha as (Hs & _ & _ & Hy).
  apply matches_inv in Hb as (Hs' & _ & _ & Hy').
  rewrite Hs in Hs'.
  apply first_dot_unique in Hs' as [<- Hs']; auto.
  apply first_dot_unique in Hs' as [<- Hs']; auto.
  assert (Hyy : y = y' /\ r = r').
  { clear - Hy Hy' Hs'.
    do 5 (try destruct y as [|? y]; try discriminate Hy).
    do 5 (try destruct y' as [|? y']; try discriminate Hy').
    simpl in Hs'. injection Hs' as -> -> -> -> ->. now split. }
  destruct Hyy as [<- <-]. reflexivity.
Qed.

Lemma in_Z_range (lo n : nat) (z : Z) :
  Z.of_nat lo <= z < Z.of_nat (lo + n) -> In z (map Z.of_nat (seq lo n)).
Proof.
  intros H. apply in_map_iff. exists (Z.to_nat z). split; [lia|].
  apply in_seq. lia.
Qed.

Lemma day_texts_ok : forallb day_text_ok (map Z.of_nat (seq 1 31)) = true.
Proof. vm_compute. reflexivity. Qed.

Lemma month_texts_ok : forallb month_text_ok (map Z.of_nat (seq 1 12)) = true.
Proof. vm_compute. reflexivity. Qed.

Lemma year_texts_ok :
  forallb year_text_ok (map Z.of_nat (seq 1 (Z.to_nat 9999))) = true.
Proof. vm_compute. reflexivity. Qed.

Lemma year_text_inv (y : Z) :
  1 <= y <= 9999 ->
  In (PyStr.chars (PyStr.zfill 4 y), []) (Strptime.re_Y (PyStr.chars (PyStr.zfill 4 y)))
  /\ PyStr.to_int (PyStr.chars (PyStr.zfill 4 y)) = y.
Proof.
  intros Hy. pose proof year_texts_ok as Hall. rewrite forallb_forall in Hall.
  specialize (Hall y (in_Z_range 1 (Z.to_nat 9999) y ltac:(lia))).
  unfold year_text_ok in Hall.
  destruct (Strptime.re_Y _) as [|[t [|c r]] [|e l]] eqn:HY; try discriminate.
  apply andb_true_iff in Hall as [Hint _]. apply Z.eqb_eq in Hint.
  assert (Hin : In (t, []) (Strptime.re_Y (PyStr.chars (PyStr.zfill 4 y))))
    by (rewrite HY; now left).
  destruct (cuts_re_Y _ _ _ Hin) as [Hcs _]. rewrite app_nil_r in Hcs.
  rewrite Hcs. split; [now left | exact Hint].
Qed.

Lemma two_digit_text_inv (mt : Strptime.matcher) (lens : list nat)
      (ok : Z -> bool) (hi : nat) (n : Z) :
  cuts mt lens -> extends mt ->
  (forall k, ok k = takes_all mt (PyStr.chars (PyStr.zfill 2 k))
                    && (PyStr.to_int (PyStr.chars (PyStr.zfill 2 k)) =? k)) ->
  forallb ok (map Z.of_nat (seq 1 hi)) = true ->
  1 <= n <= Z.of_nat hi ->
  (forall r, In (PyStr.chars (PyStr.zfill 2 n), r)
                (mt (PyStr.chars (PyStr.zfill 2 n) ++ r)%list))
  /\ PyStr.to_int (PyStr.chars (PyStr.zfill 2 n)) = n.
Proof.
  intros Hcut Hext Hok Hall Hn. rewrite forallb_forall in Hall.
  specialize (Hall n (in_Z_range 1 hi n ltac:(lia))). rewrite Hok in Hall.
  apply andb_true_iff in Hall as [Htake Hint]. apply Z.eqb_eq in Hint.
  split; [|exact Hint]. intros r. eapply takes_all_prefix; eassumption.
Qed.

Lemma re_dot_intro (r : list ascii) : In (["."%char], r) (Strptime.re_dot ("."%char :: r)).
Proof. now left. Qed.

Lemma chars_format_dmy (d : Date.date) :
  PyStr.chars (format_dmy d)
  = (PyStr.chars (PyStr.zfill 2 (Date.day d))
     ++ "."%char :: PyStr.chars (PyStr.zfill 2 (Date.month d))
     ++ "."%char :: PyStr.chars (PyStr.zfill 4 (Date.year d)))%list.
Proof.
  unfold format_dmy. rewrite chars_app.
  change (PyStr.chars ("." ++ ?s)) with ("."%char :: PyStr.chars s).
  rewrite chars_app. reflexivity.
Qed.

Lemma strptime_format_dmy (d : Date.date) :
  is_date d = true -> Strptime.strptime_date (format_dmy d) = Some d.
Proof.
  intros Hdate. destruct (is_date_bounds _ Hdate) as (Hy & Hm & Hd & Hd31).
  destruct d as [y m dd]. simpl in *.
  destruct (two_digit_text_inv Strptime.re_d _ day_text_ok 31 dd cuts_re_d extends_re_d
              (fun k => eq_refl) day_texts_ok ltac:(simpl; lia)) as [HD HDi].
  destruct (two_digit_text_inv Strptime.re_m _ month_text_ok 12 m cuts_re_m extends_re_m
              (fun k => eq_refl) month_texts_ok ltac:(simpl; lia)) as [HM HMi].
  destruct (year_text_inv y Hy) as [HY HYi].
  unfold Strptime.strptime_date. rewrite chars_format_dmy. simpl.
  set (D := PyStr.chars (PyStr.zfill 2 dd)) in *.
  set (M := PyStr.chars (PyStr.zfill 2 m)) in *.
  set (Y := PyStr.chars (PyStr.zfill 4 y)) in *.
  assert (Hin : In (D, M, Y, []) (Strptime.matches (D ++ "."%char :: M ++ "."%char :: Y)%list)).
  { eapply matches_intro.
    - apply HD.
    - apply re_dot_intro.
    - apply HM.
    - apply re_dot_intro.
    - exact HY. }
  destruct (Strptime.matches _) as [|e l] eqn:Hms; [destruct Hin|].
  assert (He : e = (D, M, Y, [])).
  { apply (matches_unique (D ++ "."%char :: M ++ "."%char :: Y)%list);
      rewrite Hms; [now left | exact Hin]. }
  subst e. cbv beta iota. rewrite HDi, HMi, HYi.
  now rewrite (is_date_new _ _ _ Hdate).
Qed.

(** X6: every date of the calendar of the years 1 to 9999, written as
    DD.MM.YYYY with zeros filling the day and month to two digits and the
    year to four, is accepted as a birthday; the birthday carries that date
    and renders as that text. *)
Theorem Birthday_init_format_dmy (d : Date.date) :
  is_date d = true ->
  Birthday_init (format_dmy d) = Ok (mkBirthday (format_dmy d) d)
  /\ Birthday_str (mkBirthday (format_dmy d) d) = format_dmy d.
Proof.
  intros Hdate. unfold Birthday_init.
  now rewrite (strptime_format_dmy d Hdate).
Qed.

(** The witness: the 5th of March 2021. *)
Lemma Birthday_init_format_dmy_witness :
  Birthday_init "05.03.2021" = Ok (mkBirthday "05.03.2021" (Date.mkDate 2021 3 5)).
Proof.
  apply (proj1 (Birthday_init_format_dmy (Date.mkDate 2021 3 5) eq_refl)).
Defined.

(** ** What every command keeps *)

Section ClosedProperty.
Variable Q : AddressBook -> Prop.
Hypothesis Hclosed : closed_under_commands Q.

Let P (w : world) : Prop := Q (book w).

Lemma closed_find name : preserves P (find_in_book name).
Proof. intros w Hw. exact Hw. Qed.

Lemma closed_display message : preserves P (display_message message).
Proof. intros w Hw. exact Hw. Qed.

Lemma closed_add_to_book name : preserves P (add_to_book (Record_init name)).
Proof. intros w Hw. now apply Hclosed. Qed.

Lemma closed_call {A} key (method : St record A) :
  (forall r, method_result r (snd (method r))) ->
  preserves P (call_on_record key method).
Proof.
  intros Hm w Hw. unfold call_on_record.
  destruct (PyDict.get (book w) key) as [r|] eqn:Hget; [|exact Hw].
  specialize (Hm r). destruct (method r) as [res r']. simpl in *.
  destruct Hclosed as [_ Hset]. unfold P. simpl. eapply Hset; eassumption.
Qed.

Lemma closed_call_add_phone key phone :
  preserves P (call_on_record key (Record_add_phone phone)).
Proof. apply closed_call. intros r. left. now exists phone. Qed.

Lemma closed_call_edit_phone key old_phone new_phone :
  preserves P (call_on_record key (Record_edit_phone old_phone new_phone)).
Proof. apply closed_call. intros r. right. left. now exists old_phone, new_phone. Qed.

Lemma closed_call_add_birthday key value :
  preserves P (call_on_record key (Record_add_birthday value)).
Proof. apply closed_call. intros r. right. right. now exists value. Qed.

Ltac closed_step :=
  first [ apply preserves_input_error
        | apply preserves_bind; [|intro]
        | apply preserves_ret | apply preserves_raise
        | apply closed_find | apply closed_display | apply closed_add_to_book
        | apply closed_call_add_phone | apply closed_call_edit_phone
        | apply closed_call_add_birthday ].

Lemma closed_add_contact args : preserves P (add_contact args).
Proof.
  unfold add_contact. closed_step. unfold add_contact_body.
  destruct args as [|name [|phone rest]]; try solve [closed_step].
  do 2 closed_step.
  - destruct a; repeat closed_step.
  - closed_step; [|closed_step].
    destruct (negb (phone =? "")%string); closed_step.
Qed.

Lemma closed_change_contact args : preserves P (change_contact args).
Proof.
  unfold change_contact. closed_step. unfold change_contact_body.
  destruct args as [|name [|old_phone [|new_phone rest]]]; try solve [closed_step].
  closed_step; [closed_step|]. destruct a; repeat closed_step.
Qed.

Lemma closed_show_phone args : preserves P (show_phone args).
Proof.
  unfold show_phone. closed_step. unfold show_phone_body.
  destruct args as [|name [|x rest]]; try solve [closed_step].
  closed_step; [closed_step|]. destruct a; closed_step.
Qed.

Lemma closed_add_birthday args : preserves P (add_birthday args).
Proof.
  unfold add_birthday. closed_step. unfold add_birthday_body.
  destruct args as [|name [|value rest]]; try solve [closed_step].
  closed_step; [closed_step|]. destruct a; repeat closed_step.
Qed.

Lemma closed_show_birthday args : preserves P (show_birthday args).
Proof.
  unfold show_birthday. closed_step. unfold show_birthday_body.
  destruct args as [|name [|x rest]]; try solve [closed_step].
  closed_step; [closed_step|]. destruct a; closed_step.
Qed.

Lemma closed_show_all : preserves P show_all.
Proof. intros w Hw. exact Hw. Qed.

Lemma closed_reachable (w : world) : Q [] -> reachable w -> Q (book w).
Proof.
  intros Hstart. induction 1 as [|args w _ IH|args w _ IH|args w _ IH|w _ IH
                                 |args w _ IH|args w _ IH].
  - exact Hstart.
  - now apply closed_add_contact.
  - now apply closed_change_contact.
  - now apply closed_show_phone.
  - now apply closed_show_all.
  - now apply closed_add_birthday.
  - now apply closed_show_birthday.
Qed.

End ClosedProperty.

(** ** Stored phones and birthdays are valid *)

Lemma Forall_set {V} (P : string * V -> Prop) (d : PyDict.t V) (k : string) (v : V) :
  Forall P d -> (forall k', P (k', v)) -> Forall P (PyDict.set d k v).
Proof.
  intros Hd Hv. induction Hd as [|[k' v'] d Hhd Htl IH]; simpl.
  - repeat constructor. apply Hv.
  - destruct (String.eqb k' k); constructor; auto.
Qed.

Lemma edit_phone_loop_valid old_number new_number (ps : list Phone) :
  Forall phone_valid ps ->
  Forall phone_valid (snd (edit_phone_loop old_number new_number ps)).
Proof.
  induction 1 as [|p ps Hp Hps IH]; simpl; [constructor|].
  destruct (String.eqb (Phone_str p) old_number).
  - unfold Phone_set_value.
    destruct (phone_ok new_number) eqn:Hok; simpl; constructor; assumption.
  - destruct (edit_phone_loop old_number new_number ps) as [res ps']. simpl in *.
    now constructor.
Qed.

Lemma method_result_valid (r r' : record) :
  method_result r r' -> record_valid r -> record_valid r'.
Proof.
  intros [[phone ->] | [[old_phone [new_phone ->]] | [value ->]]] [Hps Hb].
  - unfold Record_add_phone, bind, lift, get_state, set_phones, Phone_init.
    destruct (phone_ok phone) eqn:Hok; simpl; [|now split].
    split; [|assumption]. simpl. apply Forall_app. split; [assumption|].
    repeat constructor. exact Hok.
  - unfold Record_edit_phone.
    pose proof (edit_phone_loop_valid old_phone new_phone _ Hps) as Hloop.
    destruct (edit_phone_loop old_phone new_phone (phones r)) as [res ps'].
    simpl in *. now split.
  - unfold Record_add_birthday, bind, lift, set_birthday, Birthday_init.
    destruct (Strptime.strptime_date value) as [d|] eqn:Hparse; simpl; [|now split].
    split; [assumption|]. intros b [= <-]. exact Hparse.
Qed.

Lemma book_valid_closed : closed_under_commands book_valid.
Proof.
  split.
  - intros b name Hb. apply Forall_set; [assumption|].
    intros k'. split; [constructor | discriminate].
  - intros b key r r' Hb Hget Hm. apply Forall_set; [assumption|].
    intros k'. simpl. apply (method_result_valid r); [assumption|].
    apply get_Some_In in Hget. unfold book_valid in Hb.
    rewrite Forall_forall in Hb. exact (Hb _ Hget).
Qed.

Lemma method_result_name (r r' : record) : method_result r r' -> name r' = name r.
Proof.
  intros [[phone ->] | [[old_phone [new_phone ->]] | [value ->]]].
  - apply keeps_name_add_phone.
  - apply keeps_name_edit_phone.
  - apply keeps_name_add_birthday.
Qed.

Lemma book_inv_closed : closed_under_commands book_inv.
Proof.
  split.
  - intros b name Hb. now apply book_inv_add_record.
  - intros b key r r' [Hwf Hkeys] Hget Hm.
    split; [now apply wf_set|]. apply keys_match_set; [|assumption].
    rewrite (method_result_name _ _ Hm). symmetry. eapply keys_match_get; eassumption.
Qed.

(** X7: whatever commands have run since the empty book, the book is a
    dict whose keys are the names of its records, every phone in it has ten
    digit characters, and every birthday in it carries a date of the
    calendar that its text spells: constructing a birthday from the stored
    text gives the stored birthday. *)
Theorem reachable_book_valid (w : world) :
  reachable w ->
  book_inv (book w)
  /\ forall n r,
      AddressBook_find (book w) n = Some r ->
      name r = n
      /\ (forall p, In p (phones r) -> phone_ok (Phone_str p) = true)
      /\ (forall b, birthday r = Some b ->
            Birthday_init (Birthday_str b) = Ok b
            /\ is_date (birthday_date b) = true).
Proof.
  intros Hreach.
  assert (Hinv : book_inv (book w)).
  { apply closed_reachable; [apply book_inv_closed | | assumption].
    split; constructor. }
  assert (Hvalid : book_valid (book w)).
  { apply closed_reachable; [apply book_valid_closed | constructor | assumption]. }
  split; [exact Hinv|]. intros n r Hfind. unfold AddressBook_find in Hfind.
  split; [eapply keys_match_get; [apply Hinv | eassumption]|].
  apply get_Some_In in Hfind. unfold book_valid in Hvalid.
  rewrite Forall_forall in Hvalid. destruct (Hvalid _ Hfind) as [Hps Hb]. simpl in *.
  split.
  - rewrite Forall_forall in Hps. exact Hps.
  - intros b Hbirth. specialize (Hb b Hbirth). unfold birthday_valid in Hb.
    unfold Birthday_init, Birthday_str. rewrite Hb. split; [now destruct b|].
    destruct (strptime_date_inv _ _ Hb) as (_ & _ & _ & _ & _ & _ & _ & _ & Hdate).
    exact Hdate.
Qed.

(** The witness: the world with Alice and Bob. *)
Lemma reachable_book_valid_witness : book_inv (book w_alice_bob).
Proof.
  apply (reachable_book_valid w_alice_bob).
  unfold w_alice_bob, w_alice.
  repeat first [apply reach_add_birthday | apply reach_add_contact | apply reach_start].
Defined.

(** ** The order of the book *)

Lemma keys_prefix_closed (keys0 : list string) :
  closed_under_commands (fun b => exists extra, PyDict.keys b = (keys0 ++ extra)%list).
Proof.
  split.
  - intros b name [extra Hb]. unfold AddressBook_add_record. rewrite keys_set.
    destruct (PyDict.mem b _); [now exists extra|].
    exists (extra ++ [name])%list. simpl. now rewrite Hb, app_assoc.
  - intros b key r r' [extra Hb] Hget _. rewrite keys_set. unfold PyDict.mem.
    rewrite Hget. now exists extra.
Qed.

(** X8: no command removes a contact or moves one: after any command the
    names of the book are the names it had before, in the same order,
    followed by those it has gained. *)
Theorem commands_keep_order (args : list string) (w : world) :
  (exists extra, PyDict.keys (book (snd (add_contact args w)))
                 = (PyDict.keys (book w) ++ extra)%list)
  /\ (exists extra, PyDict.keys (book (snd (change_contact args w)))
                    = (PyDict.keys (book w) ++ extra)%list)
  /\ (exists extra, PyDict.keys (book (snd (show_phone args w)))
                    = (PyDict.keys (book w) ++ extra)%list)
  /\ (exists extra, PyDict.keys (book (snd (add_birthday args w)))
                    = (PyDict.keys (book w) ++ extra)%list)
  /\ (exists extra, PyDict.keys (book (snd (show_birthday args w)))
                    = (PyDict.keys (book w) ++ extra)%list)
  /\ (exists extra, PyDict.keys (book (snd (show_all w)))
                    = (PyDict.keys (book w) ++ extra)%list).
Proof.
  pose proof (keys_prefix_closed (PyDict.keys (book w))) as Hc.
  set (Q := fun b : AddressBook =>
              exists extra, PyDict.keys b = (PyDict.keys (book w) ++ extra)%list) in *.
  assert (Hw : Q (book w)) by (exists []; now rewrite app_nil_r).
  refine (conj _ (conj _ (conj _ (conj _ (conj _ _))))).
  - exact (closed_add_contact Q Hc args w Hw).
  - exact (closed_change_contact Q Hc args w Hw).
  - exact (closed_show_phone Q args w Hw).
  - exact (closed_add_birthday Q Hc args w Hw).
  - exact (closed_show_birthday Q args w Hw).
  - exact (closed_show_all Q w Hw).
Qed.

(** ** Exceptions that leave a command, and messages shown *)

Lemma edit_phone_loop_raises_value_error old_number new_number (ps : list Phone) (e : exn) :
  fst (edit_phone_loop old_number new_number ps) = Raise e -> exists msg, e = ValueError msg.
Proof.
  induction ps as [|p ps IH]; simpl.
  - intros [= <-]. eexists; reflexivity.
  - destruct (String.eqb (Phone_str p) old_number).
    + unfold Phone_set_value. destruct (phone_ok new_number); simpl; [discriminate|].
      intros [= <-]. eexists; reflexivity.
    + destruct (edit_phone_loop old_number new_number ps) as [res ps']. exact IH.
Qed.

Lemma method_raises_value_error (r : record) :
  (forall phone e, fst (Record_add_phone phone r) = Raise e -> exists msg, e = ValueError msg)
  /\ (forall a b e, fst (Record_edit_phone a b r) = Raise e -> exists msg, e = ValueError msg)
  /\ (forall value e, fst (Record_add_birthday value r) = Raise e ->
        exists msg, e = ValueError msg).
Proof.
  repeat split.
  - intros phone e. unfold Record_add_phone, bind, lift, Phone_init.
    destruct (phone_ok phone); simpl; [discriminate|].
    intros [= <-]. eexists; reflexivity.
  - intros a b e. unfold Record_edit_phone.
    pose proof (edit_phone_loop_raises_value_error a b (phones r) e) as H.
    destruct (edit_phone_loop a b (phones r)) as [res ps]. exact H.
  - intros value e. unfold Record_add_birthday, bind, lift, Birthday_init.
    destruct (Strptime.strptime_date value); simpl; [discriminate|].
    intros [= <-]. eexists; reflexivity.
Qed.

Lemma input_error_catches (func : list string -> M unit) (args : list string) (w : world) :
  (forall e, fst (func args w) = Raise e -> caught e) ->
  forall e, fst (input_error func args w) <> Raise e.
Proof.
  intros Hc e. unfold input_error.
  destruct (func args w) as [[[] | e'] w'] eqn:Hf; simpl in *; [discriminate|].
  specialize (Hc e' eq_refl). destruct e'; simpl in Hc; try discriminate. destruct Hc.
Qed.

Lemma call_on_record_caught {A} key (method : St record A) (w : world) (r : record) (e : exn) :
  PyDict.get (book w) key = Some r ->
  (forall e', fst (method r) = Raise e' -> exists msg, e' = ValueError msg) ->
  fst (call_on_record key method w) = Raise e -> caught e.
Proof.
  intros Hget Hm. unfold call_on_record. rewrite Hget.
  destruct (method r) as [res r'] eqn:Hr. simpl in *. intros ->.
  destruct (Hm e eq_refl) as [msg ->]. exact I.
Qed.

Lemma bind_fst_raise {A B} (m : M A) (k : A -> M B) (w : world) (e : exn) :
  fst (bind m k w) = Raise e ->
  fst (m w) = Raise e
  \/ exists a w', m w = (Ok a, w') /\ fst (k a w') = Raise e.
Proof.
  unfold bind. destruct (m w) as [[a | e'] w']; simpl; intros H.
  - right. exists a, w'. now split.
  - left. injection H as ->. reflexivity.
Qed.

(** X9: [add], [change], [phone] and [add-birthday] let no exception
    out, whatever the arguments and the book: every exception their bodies
    raise is one [input_error] turns into a return value.  [show-birthday]
    lets one out only when it is given exactly one name and that name is
    not in the book. *)
Theorem commands_raise_only (args : list string) (w : world) :
  (forall e, fst (add_contact args w) <> Raise e)
  /\ (forall e, fst (change_contact args w) <> Raise e)
  /\ (forall e, fst (show_phone args w) <> Raise e)
  /\ (forall e, fst (add_birthday args w) <> Raise e)
  /\ (forall e, fst (show_birthday args w) = Raise e ->
        exists name, args = [name] /\ AddressBook_find (book w) name = None).
Proof.
  refine (conj _ (conj _ (conj _ (conj _ _)))).
  - apply input_error_catches. intros e. unfold add_contact_body.
    destruct args as [|name [|phone rest]]; try (intros [= <-]; exact I).
    intros H. apply bind_fst_raise in H as [H | (record & w1 & Hfind & H)];
      [discriminate H|].
    injection Hfind as <- <-.
    apply bind_fst_raise in H as [H | (message & w2 & Hmsg & H)].
    + destruct (AddressBook_find (book w) name); discriminate H.
    + apply bind_fst_raise in H as [H | (u & w3 & _ & H)]; [|discriminate H].
      destruct (negb (phone =? "")%string); [|discriminate H].
      unfold AddressBook_find in Hmsg.
      destruct (PyDict.get (book w) name) as [r|] eqn:Hget.
      * injection Hmsg as _ <-.
        eapply call_on_record_caught; [exact Hget | | exact H].
        apply method_raises_value_error.
      * injection Hmsg as _ <-.
        eapply call_on_record_caught; [| | exact H].
        -- simpl. unfold AddressBook_add_record. apply get_set_same.
        -- apply method_raises_value_error.
  - apply input_error_catches. intros e. unfold change_contact_body.
    destruct args as [|name [|old_phone [|new_phone rest]]]; try (intros [= <-]; exact I).
    intros H. apply bind_fst_raise in H as [H | (record & w1 & Hfind & H)];
      [discriminate H|].
    injection Hfind as <- <-. unfold AddressBook_find in H.
    destruct (PyDict.get (book w) name) as [r|] eqn:Hget; [|injection H as <-; exact I].
    apply bind_fst_raise in H as [H | (u & w3 & _ & H)]; [|discriminate H].
    eapply call_on_record_caught; [exact Hget | | exact H].
    apply method_raises_value_error.
  - apply input_error_catches. intros e. unfold show_phone_body.
    destruct args as [|name [|x rest]]; try (intros [= <-]; exact I).
    intros H. apply bind_fst_raise in H as [H | (record & w1 & Hfind & H)];
      [discriminate H|].
    destruct record; [discriminate H | injection H as <-; exact I].
  - apply input_error_catches. intros e. unfold add_birthday_body.
    destruct args as [|name [|value rest]]; try (intros [= <-]; exact I).
    intros H. apply bind_fst_raise in H as [H | (record & w1 & Hfind & H)];
      [discriminate H|].
    injection Hfind as <- <-. unfold AddressBook_find in H.
    destruct (PyDict.get (book w) name) as [r|] eqn:Hget; [|injection H as <-; exact I].
    apply bind_fst_raise in H as [H | (u & w3 & _ & H)]; [|discriminate H].
    eapply call_on_record_caught; [exact Hget | | exact H].
    apply method_raises_value_error.
  - intros e. destruct args as [|name [|x rest]]; try discriminate.
    run_cmd. destruct (PyDict.get (book w) name) eqn:Hget; [discriminate|].
    intros _. now exists name.
Qed.

(** The witness: the exception [show-birthday] lets out for Bob, who is not
    in the empty book. *)
Lemma commands_raise_only_witness :
  exists name, ["Bob"] = [name] /\ AddressBook_find (book w0) name = None.
Proof.
  apply (proj2 (proj2 (proj2 (proj2 (commands_raise_only ["Bob"] w0))))
           (AttributeError "'NoneType' object has no attribute 'birthday'")).
  reflexivity.
Defined.

(** X10: a command shows a message exactly when it returns [None]: then
    one message is added after those shown before; when it returns a text
    or an exception, or raises, nothing is shown, so what went wrong is
    only in the value returned. *)
Theorem commands_show_on_success (args : list string) (w : world) :
  shows_on_success w (add_contact args w)
  /\ shows_on_success w (change_contact args w)
  /\ shows_on_success w (show_phone args w)
  /\ shows_on_success w (add_birthday args w)
  /\ shows_on_success w (show_birthday args w).
Proof.
  unfold shows_on_success.
  refine (conj _ (conj _ (conj _ (conj _ _)))).
  - destruct args as [|name [|phone rest]]; try reflexivity.
    run_cmd. unfold call_on_record, Record_add_phone, bind, lift, get_state,
      set_phones, Phone_init, AddressBook_add_record.
    destruct (PyDict.get (book w) name) as [r|] eqn:Hget; simpl;
      destruct (negb (phone =? "")%string); simpl;
      rewrite ?get_set_same, ?Hget; simpl;
      try destruct (phone_ok phone); simpl; eauto.
  - destruct args as [|name [|old_phone [|new_phone rest]]]; try reflexivity.
    run_cmd. unfold call_on_record, Record_edit_phone.
    destruct (PyDict.get (book w) name) as [r|] eqn:Hget; simpl; [|reflexivity].
    destruct (edit_phone_loop old_phone new_phone (phones r)) as [[[] | e] ps] eqn:Hloop;
      rewrite ?Hget, ?Hloop; simpl.
    + eexists. reflexivity.
    + destruct (edit_phone_loop_raises_value_error old_phone new_phone (phones r) e)
        as [msg ->]; [now rewrite Hloop | reflexivity].
  - destruct args as [|name [|x rest]]; try reflexivity.
    run_cmd. destruct (PyDict.get (book w) name); simpl; eauto.
  - destruct args as [|name [|value rest]]; try reflexivity.
    run_cmd. unfold call_on_record, Record_add_birthday, bind, lift, set_birthday,
      Birthday_init.
    destruct (PyDict.get (book w) name) as [r|] eqn:Hget; simpl; [|reflexivity].
    destruct (Strptime.strptime_date value); rewrite ?Hget; simpl; eauto.
  - destruct args as [|name [|x rest]]; try reflexivity.
    run_cmd. destruct (PyDict.get (book w) name); simpl; eauto.
Qed.

(** ** What [add], [change] and [add-birthday] do to the book *)

Lemma call_on_record_eq {A} key (method : St record A) (w : world)
      (r r' : record) (res : result A) :
  PyDict.get (book w) key = Some r ->
  method r = (res, r') ->
  call_on_record key method w
  = (res, mkWorld (PyDict.set (book w) key r') (shown w)).
Proof.
  intros Hget Hm. unfold call_on_record. now rewrite Hget, Hm.
Qed.

Lemma phone_ok_nonempty (phone : string) : phone_ok phone = true -> phone <> "".
Proof. intros H ->. discriminate H. Qed.

Lemma Record_add_phone_ok (phone : string) (r : record) :
  phone_ok phone = true ->
  Record_add_phone phone r
  = (Ok tt, mkRecord (name r) (phones r ++ [mkPhone phone])%list (birthday r)).
Proof.
  intros Hok. unfold Record_add_phone, bind, lift, get_state, set_phones, Phone_init.
  now rewrite Hok.
Qed.

(** X11: [add] with a valid phone returns [None] and changes the one
    entry of the name: a name not in the book gets a new last entry, a
    record with that phone alone and no birthday, and "Contact added." is
    shown; a name in the book keeps its place, its record gets the phone
    after the phones it has, also when it has that phone already, and
    "Contact updated." is shown. *)
Theorem add_contact_valid_phone (who phone : string) (rest : list string) (w : world) :
  phone_ok phone = true ->
  add_contact (who :: phone :: rest) w
  = match AddressBook_find (book w) who with
    | None =>
        (Ok PyNone,
         mkWorld (book w ++ [(who, mkRecord who [mkPhone phone] None)])%list
                 (shown w ++ ["Contact added."]))
    | Some r =>
        (Ok PyNone,
         mkWorld (PyDict.set (book w) who
                    (mkRecord (name r) (phones r ++ [mkPhone phone])%list
                              (birthday r)))
                 (shown w ++ ["Contact updated."]))
    end.
Proof.
  intros Hok. pose proof (phone_ok_nonempty _ Hok) as Hne.
  run_cmd. destruct (String.eqb_spec phone "") as [|_]; [contradiction|]. simpl.
  destruct (PyDict.get (book w) who) as [r|] eqn:Hget; simpl.
  - rewrite (call_on_record_eq who _ w r _ _ Hget (Record_add_phone_ok phone r Hok)).
    reflexivity.
  - rewrite (call_on_record_eq who _
               (mkWorld (AddressBook_add_record (book w) (Record_init who)) (shown w))
               (Record_init who) _ _
               (get_set_same (book w) who (Record_init who))
               (Record_add_phone_ok phone (Record_init who) Hok)).
    simpl. unfold AddressBook_add_record. simpl.
    rewrite set_set, set_absent by assumption. reflexivity.
Qed.

(** The witness: a second number for Alice. *)
Lemma add_contact_valid_phone_witness :
  add_contact ["Alice"; "0987654321"] (mkWorld alice_book [])
  = (Ok PyNone,
     mkWorld [("Alice", mkRecord "Alice" [mkPhone "1234567890"; mkPhone "0987654321"] None)]
             ["Contact updated."]).
Proof.
  apply (add_contact_valid_phone "Alice" "0987654321" [] (mkWorld alice_book [])).
  reflexivity.
Defined.

(** X12: [change] has four outcomes.  For a name not in the book it
    returns "Name not found. Please, check and try again."; for a record
    without the old number, the [ValueError] "Phone number not found"; for
    an invalid new number, the [ValueError] "Invalid phone format"; in these
    three the world stays as it is.  Otherwise it returns [None], shows
    "Contact updated.", and the record of the name, at its place in the
    book, has the new number where the first copy of the old one was; every
    other name is found as before. *)
Theorem change_contact_spec (who old_phone new_phone : string) (rest : list string)
        (w : world) :
  let args := who :: old_phone :: new_phone :: rest in
  (AddressBook_find (book w) who = None ->
   change_contact args w
   = (Ok (PyText "Name not found. Please, check and try again."), w))
  /\ (forall r, AddressBook_find (book w) who = Some r -> ~ renders r old_phone ->
        change_contact args w = (Ok (PyExn (ValueError "Phone number not found")), w))
  /\ (forall r, AddressBook_find (book w) who = Some r -> renders r old_phone ->
        phone_ok new_phone = false ->
        change_contact args w = (Ok (PyExn (ValueError "Invalid phone format")), w))
  /\ (forall r, AddressBook_find (book w) who = Some r -> renders r old_phone ->
        phone_ok new_phone = true ->
        exists l1 p l2 r',
          phones r = (l1 ++ p :: l2)%list
          /\ ~ In old_phone (map Phone_str l1)
          /\ Phone_str p = old_phone
          /\ r' = mkRecord (name r) (l1 ++ mkPhone new_phone :: l2)%list
                           (birthday r)
          /\ change_contact args w
             = (Ok PyNone,
                mkWorld (PyDict.set (book w) who r')
                        (shown w ++ ["Contact updated."]))
          /\ PyDict.keys (PyDict.set (book w) who r') = PyDict.keys (book w)
          /\ (forall n, n <> who ->
                AddressBook_find (PyDict.set (book w) who r') n
                = AddressBook_find (book w) n)).
Proof.
  intros args. unfold args, AddressBook_find, renders.
  refine (conj _ (conj _ (conj _ _))).
  - intros Hget. run_cmd. now rewrite Hget.
  - intros r Hget Hnot. run_cmd. rewrite Hget. simpl.
    assert (Hm : Record_edit_phone old_phone new_phone r
                 = (Raise (ValueError "Phone number not found"), r)).
    { unfold Record_edit_phone. rewrite edit_phone_loop_not_found by assumption.
      now rewrite record_eta. }
    rewrite (call_on_record_eq who _ w r _ _ Hget Hm).
    simpl. rewrite set_get_id by assumption. now rewrite world_eta.
  - intros r Hget Hin Hbad. run_cmd. rewrite Hget. simpl.
    destruct (first_match_split _ _ Hin) as (l1 & p & l2 & Hps & Hnot & Hp).
    assert (Hm : Record_edit_phone old_phone new_phone r
                 = (Raise (ValueError "Invalid phone format"), r)).
    { unfold Record_edit_phone. rewrite Hps, edit_phone_loop_found by assumption.
      unfold Phone_set_value, raise. rewrite Hbad. simpl.
      rewrite <- Hps. now rewrite record_eta. }
    rewrite (call_on_record_eq who _ w r _ _ Hget Hm).
    simpl. rewrite set_get_id by assumption. now rewrite world_eta.
  - intros r Hget Hin Hok.
    destruct (first_match_split _ _ Hin) as (l1 & p & l2 & Hps & Hnot & Hp).
    exists l1, p, l2. eexists. repeat split; try eassumption.
    + run_cmd. rewrite Hget. simpl.
      assert (Hm : Record_edit_phone old_phone new_phone r
                   = (Ok tt, mkRecord (name r)
                                      (l1 ++ mkPhone new_phone :: l2)%list (birthday r))).
      { unfold Record_edit_phone.
        rewrite Hps, edit_phone_loop_replaces by assumption. reflexivity. }
      rewrite (call_on_record_eq who _ w r _ _ Hget Hm). reflexivity.
    + rewrite keys_set. unfold PyDict.mem. now rewrite Hget.
    + intros n Hn. now apply get_set_other.
Qed.

(** The witness: Alice's number changed. *)
Lemma change_contact_spec_witness :
  exists l1 p l2 r',
    phones (mkRecord "Alice" [mkPhone "1234567890"] None) = (l1 ++ p :: l2)%list
    /\ ~ In "1234567890" (map Phone_str l1)
    /\ Phone_str p = "1234567890"
    /\ r' = mkRecord "Alice" (l1 ++ mkPhone "1112223334" :: l2)%list None
    /\ change_contact ["Alice"; "1234567890"; "1112223334"] (mkWorld alice_book [])
       = (Ok PyNone,
          mkWorld (PyDict.set alice_book "Alice" r') ([] ++ ["Contact updated."]))
    /\ PyDict.keys (PyDict.set alice_book "Alice" r') = PyDict.keys alice_book
    /\ (forall n, n <> "Alice" ->
          AddressBook_find (PyDict.set alice_book "Alice" r') n
          = AddressBook_find alice_book n).
Proof.
  apply (proj2 (proj2 (proj2
           (change_contact_spec "Alice" "1234567890" "1112223334" []
                                (mkWorld alice_book []))))
           (mkRecord "Alice" [mkPhone "1234567890"] None)).
  - reflexivity.
  - left. reflexivity.
  - reflexivity.
Defined.

(** X13: a birthday given to [add-birthday] is what [show-birthday] shows:
    when [add-birthday] returns [None] for a name and a text, the text was
    accepted by the constructor, the record of the name carries it with the
    date it spells, and [show-birthday] for that name then shows the very
    text, as it was typed, and returns [None]. *)
Theorem add_birthday_then_show (who value : string) (rest : list string) (w w1 : world) :
  add_birthday (who :: value :: rest) w = (Ok PyNone, w1) ->
  (exists r d,
      AddressBook_find (book w) who = Some r
      /\ Strptime.strptime_date value = Some d
      /\ AddressBook_find (book w1) who
         = Some (mkRecord (name r) (phones r) (Some (mkBirthday value d))))
  /\ show_birthday [who] w1 = (Ok PyNone, mkWorld (book w1) (shown w1 ++ [value])).
Proof.
  run_cmd. unfold call_on_record, Record_add_birthday, bind, lift, set_birthday,
    Birthday_init.
  destruct (PyDict.get (book w) who) as [r|] eqn:Hget; simpl; [|discriminate].
  rewrite Hget.
  destruct (Strptime.strptime_date value) as [d|] eqn:Hparse; simpl; [|discriminate].
  intros [= <-]. simpl. rewrite get_set_same. split; [|reflexivity].
  now exists r, d.
Qed.

(** The witness: Alice's birthday added and shown. *)
Lemma add_birthday_then_show_witness :
  show_birthday ["Alice"] w_alice
  = (Ok PyNone, mkWorld (book w_alice) (shown w_alice ++ ["28.02.1990"])).
Proof.
  apply (proj2 (add_birthday_then_show "Alice" "28.02.1990" []
                  (snd (add_contact ["Alice"; "1234567890"] w0)) w_alice eq_refl)).
Defined.

(** ** How far ahead an occurrence can be *)

Lemma days_before_month_table (y m : Z) :
  1 <= m <= 12 ->
  Date.days_before_month y m
  = nth (Z.to_nat (m - 1)) [0; 31; 59; 90; 120; 151; 181; 212; 243; 273; 304; 334] 0
    + (if 2 <? m then (if Date.is_leap y then 1 else 0) else 0).
Proof.
  intros Hm.
  assert (Hcases : m = 1 \/ m = 2 \/ m = 3 \/ m = 4 \/ m = 5 \/ m = 6 \/ m = 7
                   \/ m = 8 \/ m = 9 \/ m = 10 \/ m = 11 \/ m = 12) by lia.
  unfold Date.days_before_month.
  repeat (destruct Hcases as [-> | Hcases]); try subst m;
    simpl; destruct (Date.is_leap y); reflexivity.
Qed.

Lemma days_in_month_table (y m : Z) :
  1 <= m <= 12 ->
  Date.days_in_month y m
  = nth (Z.to_nat (m - 1)) [31; 28; 31; 30; 31; 30; 31; 31; 30; 31; 30; 31] 0
    + (if m =? 2 then (if Date.is_leap y then 1 else 0) else 0).
Proof.
  intros Hm.
  assert (Hcases : m = 1 \/ m = 2 \/ m = 3 \/ m = 4 \/ m = 5 \/ m = 6 \/ m = 7
                   \/ m = 8 \/ m = 9 \/ m = 10 \/ m = 11 \/ m = 12) by lia.
  repeat (destruct Hcases as [-> | Hcases]); try subst m;
    simpl; try destruct (Date.is_leap y); reflexivity.
Qed.

Lemma days_before_year_succ (y : Z) :
  1 <= y ->
  Date.days_before_year (y + 1)
  = Date.days_before_year y + 365 + (if Date.is_leap y then 1 else 0).
Proof.
  intros Hy. unfold Date.days_before_year, Date.is_leap.
  replace (y + 1 - 1) with y by lia.
  destruct (Z.eqb_spec (y mod 4) 0) as [H4 | H4];
    destruct (Z.eqb_spec (y mod 100) 0) as [H100 | H100];
    destruct (Z.eqb_spec (y mod 400) 0) as [H400 | H400];
    simpl; Z.div_mod_to_equations; lia.
Qed.

Lemma lt_same_year (y m d m' d' : Z) :
  Date.lt (Date.mkDate y m d) (Date.mkDate y m' d')
  = ((m <? m') || ((m =? m') && (d <? d'))).
Proof.
  unfold Date.lt. simpl. now rewrite Z.ltb_irrefl, Z.eqb_refl.
Qed.

Ltac month_cases m H :=
  let Hc := fresh "Hcases" in
  assert (Hc : m = 1 \/ m = 2 \/ m = 3 \/ m = 4 \/ m = 5 \/ m = 6 \/ m = 7
               \/ m = 8 \/ m = 9 \/ m = 10 \/ m = 11 \/ m = 12) by lia;
  clear H;
  repeat (destruct Hc as [-> | Hc]); try subst m.

(** The days from one date to another of the same year, and to one of the
    next year, by the tables of the calendar. *)
Lemma sub_days_tables (y y' m d tm td : Z) :
  1 <= m <= 12 -> 1 <= tm <= 12 ->
  Date.sub_days (Date.mkDate y' m d) (Date.mkDate y tm td)
  = Date.days_before_year y' - Date.days_before_year y
    + (nth (Z.to_nat (m - 1)) [0; 31; 59; 90; 120; 151; 181; 212; 243; 273; 304; 334] 0
       + (if 2 <? m then (if Date.is_leap y' then 1 else 0) else 0) + d)
    - (nth (Z.to_nat (tm - 1)) [0; 31; 59; 90; 120; 151; 181; 212; 243; 273; 304; 334] 0
       + (if 2 <? tm then (if Date.is_leap y then 1 else 0) else 0) + td).
Proof.
  intros Hm Htm. unfold Date.sub_days, Date.toordinal.
  cbn [Date.year Date.month Date.day].
  rewrite (days_before_month_table y' m Hm), (days_before_month_table y tm Htm).
  ring.
Qed.

Ltac table_eval :=
  repeat match goal with
         | |- context [nth (Z.to_nat ?e) ?l ?d] =>
             let v := eval vm_compute in (nth (Z.to_nat e) l d) in
             change (nth (Z.to_nat e) l d) with v
         | |- context [if ?c then _ else _] =>
             let v := eval vm_compute in c in
             change c with v; progress cbv iota
         end.

Lemma occurrence_bounds (today birth : Date.date) :
  is_date today = true ->
  is_date (Date.mkDate (Date.year today) (Date.month birth) (Date.day birth)) = true ->
  is_date (occurrence today birth) = true ->
  0 <= Date.sub_days (occurrence today birth) today <= 365.
Proof.
  intros Htoday Hthis Hocc.
  destruct (is_date_bounds _ Htoday) as (Hy & Htm & Htd & _).
  destruct (is_date_bounds _ Hthis) as (_ & Hm & Hd & _).
  destruct today as [y tm td], birth as [y0 m d]. simpl in *.
  unfold occurrence in *. simpl in *. rewrite lt_same_year in *.
  rewrite days_in_month_table in Htd, Hd by assumption.
  destruct ((m <? tm) || ((m =? tm) && (d <? td))) eqn:Hlt.
  - destruct (is_date_bounds _ Hocc) as (Hy' & _ & Hd' & _). simpl in *.
    rewrite days_in_month_table in Hd' by assumption.
    rewrite sub_days_tables, days_before_year_succ by lia.
    apply orb_true_iff in Hlt. rewrite andb_true_iff, !Z.ltb_lt, Z.eqb_eq in Hlt.
    destruct (Date.is_leap y), (Date.is_leap (y + 1));
      month_cases m Hm; month_cases tm Htm; simpl in Htd, Hd, Hd'; table_eval; lia.
  - rewrite sub_days_tables by lia.
    apply orb_false_iff in Hlt as [Hlt1 Hlt2]. apply Z.ltb_ge in Hlt1.
    apply andb_false_iff in Hlt2. rewrite Z.eqb_neq, Z.ltb_ge in Hlt2.
    replace (Date.days_before_year y - Date.days_before_year y) with 0 by ring.
    destruct (Date.is_leap y);
      month_cases m Hm; month_cases tm Htm; simpl in Htd, Hd; table_eval; lia.
Qed.

Lemma reanchors_inv (today : Date.date) (r : record) (b : Birthday) :
  reanchors today r = true -> birthday r = Some b ->
  is_date (Date.mkDate (Date.year today) (Date.month (birthday_date b))
                       (Date.day (birthday_date b))) = true
  /\ is_date (occurrence today (birthday_date b)) = true.
Proof.
  unfold reanchors. intros H Hb. rewrite Hb in H. now apply andb_true_iff in H.
Qed.

(** X14: take a valid current date and a birthday whose month and day
    exist in the current year.  When its occurrence exists too (that same
    date, or the same day of the next year once it has passed), the
    occurrence is never before today and never more than 365 days ahead:
    the test [0 <=] of the loop never rejects, the record is listed exactly
    when the occurrence is at most [days] days ahead, and with [days] of
    365 or more it is always listed.  When the occurrence does not exist (a
    29th of February that has passed in a leap year, or the year after
    9999), the step raises a [ValueError]. *)
Theorem upcoming_step_within_a_year (today : Date.date) (days : Z) (r : record) (b : Birthday) :
  is_date today = true ->
  birthday r = Some b ->
  is_date (Date.mkDate (Date.year today) (Date.month (birthday_date b))
                       (Date.day (birthday_date b))) = true ->
  let occ := occurrence today (birthday_date b) in
  (is_date occ = true ->
   0 <= Date.sub_days occ today <= 365
   /\ upcoming_step today days r
      = Ok (if Date.sub_days occ today <=? days
            then Some (mkCongratulation (name r) (Date.strftime_Ymd occ))
            else None)
   /\ (365 <= days ->
       upcoming_step today days r
       = Ok (Some (mkCongratulation (name r) (Date.strftime_Ymd occ)))))
  /\ (is_date occ = false ->
      exists msg, upcoming_step today days r = Raise (ValueError msg)).
Proof.
  intros Htoday Hb Hthis occ. split.
  - intros Hocc.
    assert (Hre : reanchors today r = true).
    { unfold reanchors. rewrite Hb, Hthis. exact Hocc. }
    pose proof (occurrence_bounds today (birthday_date b) Htoday Hthis Hocc) as Hbound.
    fold occ in Hbound.
    assert (Hstep : upcoming_step today days r
                    = Ok (if Date.sub_days occ today <=? days
                          then Some (mkCongratulation (name r) (Date.strftime_Ymd occ))
                          else None)).
    { rewrite (upcoming_step_ok _ _ _ Hre). unfold upcoming_of. rewrite Hb.
      fold occ. unfold in_window.
      replace (0 <=? Date.sub_days occ today) with true
        by (symmetry; apply Z.leb_le; lia).
      reflexivity. }
    repeat split; try lia; [exact Hstep|].
    intros Hdays. rewrite Hstep.
    replace (Date.sub_days occ today <=? days) with true
      by (symmetry; apply Z.leb_le; lia).
    reflexivity.
  - intros Hocc. apply upcoming_step_raise.
    unfold reanchors. rewrite Hb, Hthis. exact Hocc.
Qed.

(** The witness: Alice's birthday, seen from the 25th of February 2023. *)
Lemma upcoming_step_within_a_year_witness :
  0 <= Date.sub_days (occurrence today_2023_02_25 (Date.mkDate 1990 2 28))
                     today_2023_02_25 <= 365.
Proof.
  apply (proj1 (upcoming_step_within_a_year today_2023_02_25 7
                  (mkRecord "Alice" [mkPhone "1234567890"]
                            (Some (mkBirthday "28.02.1990" (Date.mkDate 1990 2 28))))
                  (mkBirthday "28.02.1990" (Date.mkDate 1990 2 28))
                  eq_refl eq_refl eq_refl) eq_refl).
Defined.

(** The leap day of 2020 seen on the first of March 2024: the day exists in
    2024 and has passed, 2025 has none, and the step raises however wide
    the window. *)
Example upcoming_step_leap_day_passed :
  exists msg,
    upcoming_step (Date.mkDate 2024 3 1) 365
      (mkRecord "Bob" [] (Some (mkBirthday "29.02.2020" (Date.mkDate 2020 2 29))))
    = Raise (ValueError msg).
Proof. eexists. vm_compute. reflexivity. Qed.

(** Years below 1000 are written without padding. *)
Example strftime_year_999 :
  Date.strftime_Ymd (Date.mkDate 999 1 2) = "999.01.02"
  /\ Date.strftime_Ymd (Date.mkDate 2023 2 28) = "2023.02.28".
Proof. split; reflexivity. Qed.

Lemma upcoming_spec_In (today : Date.date) (days : Z) (rs : list record) (c : congratulation) :
  In c (flat_map (fun r => match upcoming_of today days r with
                           | Some c => [c]
                           | None => []
                           end) rs) ->
  exists r b,
    In r rs /\ birthday r = Some b
    /\ c = mkCongratulation (name r) (Date.strftime_Ymd (occurrence today (birthday_date b)))
    /\ 0 <= Date.sub_days (occurrence today (birthday_date b)) today <= days.
Proof.
  intros H. apply in_flat_map in H as [r [Hr H]]. unfold upcoming_of in H.
  destruct (birthday r) as [b|] eqn:Hb; [|destruct H].
  destruct (in_window _ _ _) eqn:Hw; [|destruct H].
  destruct H as [<- | []]. exists r, b. repeat split; auto;
    unfold in_window in Hw; apply andb_true_iff in Hw as [H1 H2];
    apply Z.leb_le in H1, H2; assumption.
Qed.

(** X15: whenever [get_upcoming_birthdays] returns, it returns the list of
    the specification: each entry is the name of a record of the book with
    a birthday, together with that birthday's occurrence in the text
    [strftime("%Y.%m.%d")] gives it (999.01.02 for a year below 1000), an
    occurrence between 0 and [days] days ahead of today; there are no more
    entries than records; and a negative [days] gives the empty list. *)
Theorem get_upcoming_birthdays_sound
        (today : Date.date) (b : AddressBook) (days : Z) (l : list congratulation) :
  AddressBook_get_upcoming_birthdays today b days = Ok l ->
  l = upcoming_spec today days b
  /\ (forall c, In c l ->
        exists r bd,
          In r (PyDict.values b) /\ birthday r = Some bd
          /\ c = mkCongratulation (name r)
                   (Date.strftime_Ymd (occurrence today (birthday_date bd)))
          /\ 0 <= Date.sub_days (occurrence today (birthday_date bd)) today <= days)
  /\ (List.length l <= List.length b)%nat
  /\ (days < 0 -> l = []).
Proof.
  intros Hrun.
  assert (Hl : l = upcoming_spec today days b).
  { destruct (forallb (reanchors today) (PyDict.values b)) eqn:Hall.
    - rewrite (proj1 (get_upcoming_birthdays_refines today b days) Hall) in Hrun.
      now injection Hrun.
    - destruct (proj2 (get_upcoming_birthdays_refines today b days) Hall) as [msg Hmsg].
      congruence. }
  subst l. unfold upcoming_spec. repeat split.
  - intros c Hc. now apply upcoming_spec_In.
  - unfold PyDict.values. rewrite <- (length_map snd b).
    induction (map snd b) as [|r rs IH]; simpl; [lia|].
    rewrite length_app. destruct (upcoming_of today days r); simpl; lia.
  - intros Hneg.
    destruct (flat_map _ (PyDict.values b)) as [|c rest] eqn:Hflat; [reflexivity|].
    assert (Hc : In c (c :: rest)) by now left. rewrite <- Hflat in Hc.
    apply upcoming_spec_In in Hc as (r & bd & _ & _ & _ & Hwin). lia.
Qed.

(** The witness: Alice's book on the 25th of February 2023. *)
Lemma get_upcoming_birthdays_sound_witness :
  [mkCongratulation "Alice" "2023.02.28"] = upcoming_spec today_2023_02_25 7 (book w_alice).
Proof.
  apply (proj1 (get_upcoming_birthdays_sound today_2023_02_25 (book w_alice) 7
                  [mkCongratulation "Alice" "2023.02.28"] eq_refl)).
Defined.

Lemma upcoming_of_wide (today : Date.date) (days : Z) (r : record) :
  is_date today = true -> reanchors today r = true -> 365 <= days ->
  upcoming_of today days r
  = match birthday r with
    | Some b => Some (mkCongratulation (name r)
                        (Date.strftime_Ymd (occurrence today (birthday_date b))))
    | None => None
    end.
Proof.
  intros Htoday Hre Hdays. unfold upcoming_of.
  destruct (birthday r) as [b|] eqn:Hb; [|reflexivity].
  destruct (reanchors_inv _ _ _ Hre Hb) as [Hthis Hocc].
  pose proof (occurrence_bounds today (birthday_date b) Htoday Hthis Hocc) as Hbound.
  unfold in_window.
  replace (0 <=? _) with true by (symmetry; apply Z.leb_le; lia).
  replace (_ <=? days) with true by (symmetry; apply Z.leb_le; lia).
  reflexivity.
Qed.

Lemma upcoming_names_wide (today : Date.date) (days : Z) (rs : list record) :
  is_date today = true -> 365 <= days ->
  forallb (reanchors today) rs = true ->
  map c_name (flat_map (fun r => match upcoming_of today days r with
                                 | Some c => [c]
                                 | None => []
                                 end) rs)
  = map name (filter has_birthday rs).
Proof.
  intros Htoday Hdays. induction rs as [|r rs IH]; simpl; [reflexivity|].
  intros Hall. apply andb_true_iff in Hall as [Hr Hrs].
  rewrite map_app, (IH Hrs), (upcoming_of_wide _ _ _ Htoday Hr Hdays).
  unfold has_birthday. destruct (birthday r); reflexivity.
Qed.

Lemma reachable_reanchors (today : Date.date) (w : world) :
  reachable w ->
  Date.MINYEAR <= Date.year today < Date.MAXYEAR ->
  (forall r, In r (PyDict.values (book w)) -> ~ feb29 r) ->
  forallb (reanchors today) (PyDict.values (book w)) = true.
Proof.
  intros Hreach Hy Hplain.
  assert (Hvalid : book_valid (book w)).
  { apply closed_reachable; [apply book_valid_closed | constructor | assumption]. }
  apply forallb_forall. intros r Hr. apply reanchors_plain; [assumption|].
  intros b Hb. split.
  - unfold PyDict.values in Hr. apply in_map_iff in Hr as [[k r'] [Hk Hin]].
    simpl in Hk. subst r'. unfold book_valid in Hvalid.
    rewrite Forall_forall in Hvalid. destruct (Hvalid _ Hin) as [_ Hbv].
    specialize (Hbv b Hb). unfold birthday_valid in Hbv.
    destruct (strptime_date_inv _ _ Hbv) as (_ & _ & _ & _ & _ & _ & _ & _ & Hdate).
    exact Hdate.
  - intros [Hm Hd]. apply (Hplain r Hr). exists b. auto.
Qed.

(** X16: for a book the commands have built, on a date of the years 1 to
    9998, [get_upcoming_birthdays] returns, and returns the list of the
    specification, as long as no birthday of the book is a 29th of
    February; with [days] of 365 or more the list names every record that
    has a birthday, once each, in the order of the book. *)
Theorem get_upcoming_birthdays_without_feb29 (today : Date.date) (w : world) (days : Z) :
  reachable w ->
  is_date today = true ->
  Date.year today < 9999 ->
  (forall r, In r (PyDict.values (book w)) -> ~ feb29 r) ->
  AddressBook_get_upcoming_birthdays today (book w) days
  = Ok (upcoming_spec today days (book w))
  /\ (365 <= days ->
      map c_name (upcoming_spec today days (book w))
      = map name (filter has_birthday (PyDict.values (book w)))).
Proof.
  intros Hreach Htoday Hy Hplain.
  destruct (is_date_bounds _ Htoday) as (Hy1 & _).
  assert (Hall : forallb (reanchors today) (PyDict.values (book w)) = true).
  { apply reachable_reanchors; try assumption.
    unfold Date.MINYEAR, Date.MAXYEAR. lia. }
  split.
  - now apply get_upcoming_birthdays_refines.
  - intros Hdays. unfold upcoming_spec. now apply upcoming_names_wide.
Qed.

(** The witness: Alice's book on the 25th of February 2023. *)
Lemma get_upcoming_birthdays_without_feb29_witness :
  AddressBook_get_upcoming_birthdays today_2023_02_25 (book w_alice) 7
  = Ok (upcoming_spec today_2023_02_25 7 (book w_alice)).
Proof.
  apply (proj1 (get_upcoming_birthdays_without_feb29 today_2023_02_25 w_alice 7
                  ltac:(unfold w_alice;
                        repeat first [apply reach_add_birthday | apply reach_add_contact
                                     | apply reach_start])
                  eq_refl ltac:(simpl; lia)
                  ltac:(intros r [<- | []] (b & [= <-] & _ & Hd); discriminate Hd))).
Defined.
